(** * WireframesReader: a shallow embedding of [wireframes-reader.ts]

    The crawler of the repository is the class [WireframesReader].  Its pure
    helpers (URL resolution, the link and asset tests) are embedded as
    functions on strings, the two libraries it calls are embedded as
    capabilities (a parsed document is a list of elements in document order,
    [axios.get] is a function from URLs to results), and the recursive
    traversal threads the two mutable fields [visitedUrls] and
    [allWireframes] explicitly.

    Strings hold ASCII text (any other character as its UTF-8 bytes);
    [toLowerCase] acts on the letters A-Z and [trim] on ASCII white space,
    which is what JavaScript does on ASCII text. *)

From Stdlib Require Import String Ascii List ZArith Bool Lia.
From stdpp Require Import base relations gmap sets list strings.

Local Open Scope Z_scope.

(** ** JavaScript string methods used by the reader *)

Module Js.

(** [s.startsWith(p)] *)
Fixpoint startsWith (s p : string) {struct p} : bool :=
  match p with
  | EmptyString => true
  | String a p' =>
      match s with
      | EmptyString => false
      | String b s' => if Ascii.eqb a b then startsWith s' p' else false
      end
  end.

(** [s.includes(sub)] *)
Fixpoint includes (s sub : string) {struct s} : bool :=
  startsWith s sub ||
  match s with
  | EmptyString => false
  | String _ s' => includes s' sub
  end.

(** [s.endsWith(suf)] *)
Fixpoint endsWith (s suf : string) {struct s} : bool :=
  String.eqb s suf ||
  match s with
  | EmptyString => false
  | String _ s' => endsWith s' suf
  end.

Definition lowerChar (c : ascii) : ascii :=
  let n := nat_of_ascii c in
  if ((65 <=? n) && (n <=? 90))%nat then ascii_of_nat (n + 32) else c.

(** [s.toLowerCase()] *)
Fixpoint toLowerCase (s : string) : string :=
  match s with
  | EmptyString => EmptyString
  | String c s' => String (lowerChar c) (toLowerCase s')
  end.

(** the character class [\d] *)
Definition isDigit (c : ascii) : bool :=
  let n := nat_of_ascii c in ((48 <=? n) && (n <=? 57))%nat.

(** ASCII white space *)
Definition isSpace (c : ascii) : bool :=
  let n := nat_of_ascii c in
  ((9 <=? n) && (n <=? 13) || (n =? 32))%nat.

Fixpoint trimStart (s : string) : string :=
  match s with
  | EmptyString => EmptyString
  | String c s' => if isSpace c then trimStart s' else s
  end.

(** drops trailing white space *)
Fixpoint trimEnd (s : string) : string :=
  match s with
  | EmptyString => EmptyString
  | String c s' =>
      match trimEnd s' with
      | EmptyString => if isSpace c then EmptyString else String c EmptyString
      | t => String c t
      end
  end.

(** [s.trim()] *)
Definition trim (s : string) : string := trimEnd (trimStart s).

(** [s.substring(0, n)] *)
Fixpoint take (n : nat) (s : string) : string :=
  match n, s with
  | S n', String c s' => String c (take n' s')
  | _, _ => EmptyString
  end.

Fixpoint skip (n : nat) (s : string) : string :=
  match n, s with
  | S n', String _ s' => skip n' s'
  | _, _ => s
  end.

(** the last element of [s.split('/')] *)
Fixpoint lastPart (s : string) : string :=
  match s with
  | EmptyString => EmptyString
  | String c s' =>
      if includes s' "/" then lastPart s'
      else if Ascii.eqb c "/" then s' else s
  end.

(** [a || b] on strings: the empty string is falsy *)
Definition orElse (a b : string) : string :=
  match a with EmptyString => b | _ => a end.

(** A regular expression made of a literal followed by [\d+], as in
    [/page=\d+/]: some occurrence of the literal is followed by a digit. *)
Definition digitAfter (s lit : string) : bool :=
  startsWith s lit &&
  match skip (String.length lit) s with
  | String c _ => isDigit c
  | EmptyString => false
  end.

Fixpoint testLitDigits (lit s : string) {struct s} : bool :=
  digitAfter s lit ||
  match s with
  | EmptyString => false
  | String _ s' => testLitDigits lit s'
  end.

(** The tail of [/\/([^\/]+)\/$/] once the opening slash is consumed:
    at least one character that is not a slash, a slash, the end. *)
Fixpoint segmentSlashEnd (seen : bool) (s : string) : bool :=
  match s with
  | EmptyString => false
  | String c s' =>
      if Ascii.eqb c "/"
      then seen && match s' with EmptyString => true | _ => false end
      else segmentSlashEnd true s'
  end.

(** [s.match(/\/([^\/]+)\/$/)] is not null *)
Fixpoint matchTrailingDir (s : string) : bool :=
  match s with
  | EmptyString => false
  | String c s' =>
      (Ascii.eqb c "/" && segmentSlashEnd false s') || matchTrailingDir s'
  end.

End Js.

(** ** The parsed document (cheerio)

    The reader only enumerates the elements that match a selector, in
    document order, and reads attributes and text.  An element carries what
    those queries can see. *)

Record Element := {
  tag : string;                    (* lower-cased tag name *)
  attrs : gmap string string;      (* attribute values *)
  text : string;                   (* [$(el).text()] *)
  parentText : string;             (* [$(el).parent().text()] *)
  grandParentText : string;        (* [$(el).parent().parent().text()] *)
  ancestorClasses : list string    (* classes carried by some ancestor *)
}.

(** a document: its elements in document order *)
Definition Document := list Element.

(** [$(el).attr(name)] *)
Definition attr (el : Element) (name : string) : option string :=
  attrs el !! name.

(** The selectors that occur in the reader. *)
Inductive Selector :=
| ByTag (t : string)                          (* [img] *)
| HasAttr (t a : string)                      (* [a[href]] *)
| AttrContains (t a sub : string)             (* [a[href*="sub"]] *)
| Inside (cls t : string)                     (* [.cls a] *)
| Contains (t sub : string).                  (* [a:contains("sub")] *)

Definition isTag (t : string) (el : Element) : bool := String.eqb (tag el) t.

Definition matches (sel : Selector) (el : Element) : bool :=
  match sel with
  | ByTag t => isTag t el
  | HasAttr t a =>
      isTag t el && match attr el a with Some _ => true | None => false end
  | AttrContains t a sub =>
      isTag t el &&
      match attr el a with Some v => Js.includes v sub | None => false end
  | Inside cls t =>
      isTag t el && existsb (String.eqb cls) (ancestorClasses el)
  | Contains t sub => isTag t el && Js.includes (text el) sub
  end.

(** [$(selector)]: the matching elements, in document order *)
Definition select (doc : Document) (sel : Selector) : list Element :=
  List.filter (matches sel) doc.

(** ** The reader's data *)

Inductive FileType := image | page | unknown.

Record WireframeInfo := {
  name : string;
  url : string;
  type : FileType;
  description : option string;
  size_ : option string            (* [size?], never written by the reader *)
}.

(** [private baseUrl] *)
Definition baseUrl : string :=
  "https://gytx.dev/wareframes/pog_up_wareframes/".

(** ** URL resolution and the tests on URLs *)

(** [resolveUrl(url, baseUrl?)]; an omitted [baseUrl] is [None].  The
    expression [baseUrl || this.baseUrl] takes the default for an omitted
    and for an empty argument. *)
Definition resolveUrl (u : string) (base : option string) : string :=
  if Js.startsWith u "http" then u
  else if Js.startsWith u "/" then "https://gytx.dev" +:+ u
  else
    let b := match base with
             | Some b => Js.orElse b baseUrl
             | None => baseUrl
             end in
    b +:+ u.

Definition wireframeExtensions : list string :=
  [".png"; ".jpg"; ".jpeg"; ".gif"; ".svg"; ".pdf"].

Definition wireframeKeywords : list string :=
  ["wireframe"; "mockup"; "design"; "ui"; "ux"; "screen"].

Definition isWireframeFile (u : string) : bool :=
  let lowerUrl := Js.toLowerCase u in
  let hasValidExtension :=
    existsb (fun ext => Js.includes lowerUrl ext) wireframeExtensions in
  let hasWireframeKeyword :=
    existsb (fun keyword =>
               Js.includes lowerUrl keyword || Js.includes lowerUrl "pog")
            wireframeKeywords in
  hasValidExtension || hasWireframeKeyword.

Definition getFileType (u : string) : FileType :=
  let lowerUrl := Js.toLowerCase u in
  if Js.includes lowerUrl ".png" || Js.includes lowerUrl ".jpg" ||
     Js.includes lowerUrl ".jpeg" || Js.includes lowerUrl ".gif" ||
     Js.includes lowerUrl ".svg"
  then image
  else if Js.includes lowerUrl ".pdf" then page
  else unknown.

Definition extractFileName (u : string) : string :=
  Js.orElse (Js.lastPart u) "wireframe".

Definition extractDescription (el : Element) : string :=
  let parentText := Js.trim (parentText el) in
  let grandParentText := Js.trim (grandParentText el) in
  Js.orElse (Js.take 100 parentText)
            (Js.orElse (Js.take 100 grandParentText) "").

Definition paginationPatterns : list string :=
  ["page="; "p="; "offset="; "/page/"; "/p/"].

Definition isValidPaginationLink (u currentUrl : string) : bool :=
  if negb (Js.includes u "gytx.dev") then false
  else if String.eqb u currentUrl then false
  else existsb (fun lit => Js.testLitDigits lit u) paginationPatterns.

Definition isDirectory (u : string) : bool :=
  let directoryPatterns :=
    [ Js.endsWith u "/";
      Js.includes u "/wareframes/";
      Js.includes u "/pog_up_wareframes/";
      negb (Js.includes u ".") && Js.includes u "/";
      Js.matchTrailingDir u ] in
  existsb (fun pattern => pattern) directoryPatterns.

Definition webPageExtensions : list string :=
  [".html"; ".htm"; ".php"; ".asp"; ".aspx"; ".jsp"].

Definition isWebPage (u : string) : bool :=
  existsb (fun ext => Js.includes (Js.toLowerCase u) ext) webPageExtensions.

Definition directFileExtensions : list string :=
  [".png"; ".jpg"; ".jpeg"; ".gif"; ".svg"; ".pdf"; ".zip"; ".rar"; ".doc";
   ".docx"; ".txt"].

Definition shouldExploreLink (u currentUrl : string) : bool :=
  if negb (Js.includes u "gytx.dev") then false
  else if existsb (fun ext => Js.includes (Js.toLowerCase u) ext)
                  directFileExtensions
  then false
  else isDirectory u || isWebPage u.

(** ** Extraction of assets and of links from one page *)

(** the record built for an anchor matched by [a[href*="."]] *)
Definition anchorWireframe (sourceUrl : option string) (el : Element)
    (href : string) : WireframeInfo :=
  {| name := Js.orElse (Js.trim (text el)) (extractFileName href);
     url := resolveUrl href sourceUrl;
     type := getFileType href;
     description := Some (extractDescription el);
     size_ := None |}.

(** the record built for an [img] *)
Definition imgWireframe (sourceUrl : option string) (el : Element)
    (src : string) : WireframeInfo :=
  {| name := Js.orElse (default "" (attr el "alt")) (extractFileName src);
     url := resolveUrl src sourceUrl;
     type := image;
     description := Some (extractDescription el);
     size_ := None |}.

(** one iteration of an [each] callback of [parseWireframes]: the records
    it pushes.  [if (href && this.isWireframeFile(href))] skips an absent
    and an empty attribute. *)
Definition pushIfWireframe (mk : Element -> string -> WireframeInfo)
    (a : string) (el : Element) : list WireframeInfo :=
  match attr el a with
  | Some v =>
      if negb (String.eqb v "") && isWireframeFile v then [mk el v] else []
  | None => []
  end.

Definition parseWireframes (html : Document) (sourceUrl : option string)
    : list WireframeInfo :=
  flat_map (pushIfWireframe (anchorWireframe sourceUrl) "href")
           (select html (AttrContains "a" "href" "."))
  ++
  flat_map (pushIfWireframe (imgWireframe sourceUrl) "src")
           (select html (ByTag "img")).

Definition paginationSelectors : list Selector :=
  [ AttrContains "a" "href" "page=";
    AttrContains "a" "href" "p=";
    AttrContains "a" "href" "offset=";
    Inside "pagination" "a";
    Inside "pager" "a";
    Inside "page-nav" "a";
    Contains "a" "Suivant";
    Contains "a" "Précédent";
    Contains "a" "Next";
    Contains "a" "Previous";
    AttrContains "a" "href" "&page";
    AttrContains "a" "href" "?page" ].

(** one iteration of the [each] callbacks that collect links: the resolved
    URL is pushed when [keep] accepts it *)
Definition pushIfLink (keep : string -> string -> bool) (currentUrl : string)
    (el : Element) : list string :=
  match attr el "href" with
  | Some href =>
      if String.eqb href "" then []
      else
        let resolvedUrl := resolveUrl href (Some currentUrl) in
        if keep resolvedUrl currentUrl then [resolvedUrl] else []
  | None => []
  end.

Definition findPaginationLinks (html : Document) (currentUrl : string)
    : list string :=
  flat_map (fun selector =>
              flat_map (pushIfLink isValidPaginationLink currentUrl)
                       (select html selector))
           paginationSelectors.

(** [[...new Set(links)]]: the first occurrence of each value, in order *)
Definition setOf (links : list string) : list string :=
  fold_left (fun acc x => if decide (x ∈ acc) then acc else acc ++ [x])
            links [].

Definition findLinksToExplore (html : Document) (currentUrl : string)
    : list string :=
  let links :=
    flat_map (pushIfLink shouldExploreLink currentUrl)
             (select html (HasAttr "a" "href")) in
  let paginationLinks := findPaginationLinks html currentUrl in
  setOf (links ++ paginationLinks).

(** ** The traversal *)

(** what [await axios.get(url, ...)] does: it throws (transport error, time
    out, a status the client rejects) or yields a response.  The body of a
    response is given as the document [cheerio.load] makes of it, and the
    web answers a URL the same way all along a run. *)
Inductive Response :=
| Rejected
| Resolved (status : Z) (data : Document).

(** The two mutable fields of the reader, and the list of the URLs handed
    to [axios.get] so far, oldest first (a ghost field: the code keeps no
    such list). *)
Record Reader := {
  visitedUrls : gset string;
  allWireframes : list WireframeInfo;
  requests : list string
}.

(** [new WireframesReader()] *)
Definition newReader : Reader :=
  {| visitedUrls := ∅; allWireframes := []; requests := [] |}.

(** How far a call got: it returned, or the recursion is deeper than the
    budget allows and the call is still running. *)
Inductive Outcome :=
| Returned (r : Reader)
| Running (r : Reader).

Definition readerOf (o : Outcome) : Reader :=
  match o with Returned r | Running r => r end.

Section Crawl.

(** the web, as [axios.get] sees it *)
Variable get : string -> Response.

(** the [for (const link of linksToExplore)] loop of [explorePage] *)
Fixpoint forLinks (explore : string -> Reader -> Outcome)
    (links : list string) (r : Reader) : Outcome :=
  match links with
  | [] => Returned r
  | link :: rest =>
      if decide (link ∈ visitedUrls r) then forLinks explore rest r
      else
        match explore link r with
        | Returned r' => forLinks explore rest r'
        | Running r' => Running r'
        end
  end.

(** [visitedUrls.add(url)] followed by the call of [axios.get] *)
Definition visit (u : string) (r : Reader) : Reader :=
  {| visitedUrls := {[u]} ∪ visitedUrls r;
     allWireframes := allWireframes r;
     requests := requests r ++ [u] |}.

(** [this.allWireframes.push(...pageWireframes)] *)
Definition pushAll (ws : list WireframeInfo) (r : Reader) : Reader :=
  {| visitedUrls := visitedUrls r;
     allWireframes := allWireframes r ++ ws;
     requests := requests r |}.

(** [explorePage(url)], with [depth] bounding the nesting of the calls *)
Fixpoint explorePage (depth : nat) (u : string) (r : Reader) : Outcome :=
  match depth with
  | O => Running r
  | S depth' =>
      if decide (u ∈ visitedUrls r) then Returned r
      else
        let r1 := visit u r in
        match get u with
        | Rejected => Returned r1                      (* [catch] *)
        | Resolved status data =>
            if negb (status =? 200) then Returned r1
            else
              let pageWireframes := parseWireframes data (Some u) in
              let r2 := pushAll pageWireframes r1 in
              let linksToExplore := findLinksToExplore data u in
              forLinks (explorePage depth') linksToExplore r2
        end
  end.

(** [exploreAllPages()]: the reader it runs on is [this]; what it returns,
    [this.allWireframes], is read off the reader of the outcome *)
Definition exploreAllPages (depth : nat) (r : Reader) : Outcome :=
  explorePage depth baseUrl r.

(** the reader of a fresh instance after [exploreAllPages()], or as far as
    the run got within [depth] *)
Definition crawl (depth : nat) : Reader :=
  readerOf (exploreAllPages depth newReader).

(** ** The run as a sequence of page steps *)

(** [u] may be handed to [explorePage] while the reader is [r]: it is the
    root, or a link found on a page fetched earlier with status 200 *)
Definition scheduled (r : Reader) (u : string) : Prop :=
  u = baseUrl \/
  exists cur data,
    In cur (requests r) /\ get cur = Resolved 200 data /\
    In u (findLinksToExplore data cur).

(** what one call of [explorePage] on a fresh URL does to the reader before
    it turns to the links of the page *)
Inductive step : Reader -> Reader -> Prop :=
| step_failed (u : string) (r : Reader) :
    u ∉ visitedUrls r -> scheduled r u ->
    (forall data, get u <> Resolved 200 data) ->
    step r (visit u r)
| step_parsed (u : string) (r : Reader) (data : Document) :
    u ∉ visitedUrls r -> scheduled r u ->
    get u = Resolved 200 data ->
    step r (pushAll (parseWireframes data (Some u)) (visit u r)).

(** the link graph: the URLs the crawl can be led to from the root *)
Inductive reachable : string -> Prop :=
| reachable_root : reachable baseUrl
| reachable_link (cur : string) (data : Document) (l : string) :
    reachable cur -> get cur = Resolved 200 data ->
    In l (findLinksToExplore data cur) -> reachable l.

(** what holds of the reader all along a run *)
Record consistent (r : Reader) : Prop := {
  requests_nodup : NoDup (requests r);
  requests_visited : forall u, In u (requests r) <-> u ∈ visitedUrls r;
  requests_domain :
    forall u, In u (requests r) -> Js.includes u "gytx.dev" = true;
  records_kept :
    forall u data w,
      In u (requests r) -> get u = Resolved 200 data ->
      In w (parseWireframes data (Some u)) -> In w (allWireframes r);
  records_origin :
    forall w, In w (allWireframes r) ->
      exists u data,
        In u (requests r) /\ get u = Resolved 200 data /\
        In w (parseWireframes data (Some u))
}.

End Crawl.

(** ** Sample elements and sample webs *)

Definition anchor (href txt : string) : Element :=
  {| tag := "a"; attrs := {[ "href" := href ]}; text := txt;
     parentText := txt; grandParentText := txt; ancestorClasses := [] |}.

Definition img (src : string) : Element :=
  {| tag := "img"; attrs := {[ "src" := src ]}; text := "";
     parentText := ""; grandParentText := ""; ancestorClasses := [] |}.

(** the root page links to itself and to a sub-page; the sub-page links
    back to the root, to itself and to a page that cannot be fetched *)
Definition webCycle (u : string) : Response :=
  if String.eqb u baseUrl then
    Resolved 200 [anchor baseUrl "home"; anchor "a/" "more"]
  else if String.eqb u (baseUrl +:+ "a/") then
    Resolved 200 [anchor baseUrl "home"; anchor (baseUrl +:+ "a/") "here";
                  anchor "b.html" "b"; img "b-screen"]
  else Rejected.

(** the URLs of [webCycle] *)
Definition webCycleUrls : gset string :=
  {[ baseUrl; baseUrl +:+ "a/"; baseUrl +:+ "a/b.html" ]}.

(** the root page links to an image kept on another host *)
Definition webExternalAsset (u : string) : Response :=
  if String.eqb u baseUrl then
    Resolved 200 [anchor "https://otherhost.com/image.png" "partner"]
  else Rejected.

(** the root page links to a directory of another host whose path names
    the crawl domain *)
Definition webExternalHost (u : string) : Response :=
  if String.eqb u baseUrl then
    Resolved 200 [anchor "https://otherhost.com/gytx.dev/" "mirror"]
  else Rejected.

(** The host of an absolute URL as the specification's domain gate reads
    it (not a function of the reader): the text between [://] and the next
    slash. *)
Fixpoint untilSlash (s : string) : string :=
  match s with
  | EmptyString => EmptyString
  | String c s' =>
      if Ascii.eqb c "/" then EmptyString else String c (untilSlash s')
  end.

Fixpoint specHost (u : string) : string :=
  match u with
  | EmptyString => EmptyString
  | String c u' =>
      if Js.startsWith u "://" then untilSlash (Js.skip 3 u) else specHost u'
  end.

(** ** File names and statistics *)

(** the character class of the first [replace] of [sanitizeFileName]:
    less-than, greater-than, colon, double quote (character 34), slash,
    backslash (character 92), bar, question mark, star *)
Definition isReserved (c : ascii) : bool :=
  existsb (Ascii.eqb c)
          [ "<"%char; ">"%char; ":"%char; ascii_of_nat 34; "/"%char;
            ascii_of_nat 92; "|"%char; "?"%char; "*"%char ].

(** the first [replace]: every character of the class becomes an
    underscore *)
Fixpoint replaceReserved (s : string) : string :=
  match s with
  | EmptyString => EmptyString
  | String c s' =>
      String (if isReserved c then "_"%char else c) (replaceReserved s')
  end.

(** [s.replace(/\s+/g, '_')]: every maximal run of white space becomes one
    underscore; [inRun] tells that the character before was white space *)
Fixpoint replaceSpaceRuns (inRun : bool) (s : string) : string :=
  match s with
  | EmptyString => EmptyString
  | String c s' =>
      if Js.isSpace c
      then if inRun then replaceSpaceRuns true s'
           else String "_"%char (replaceSpaceRuns true s')
      else String c (replaceSpaceRuns false s')
  end.

Definition sanitizeFileName (fileName : string) : string :=
  Js.toLowerCase (replaceSpaceRuns false (replaceReserved fileName)).

(** every character of [s] passes [p] *)
Fixpoint allChars (p : ascii -> bool) (s : string) : bool :=
  match s with
  | EmptyString => true
  | String c s' => p c && allChars p s'
  end.

(** an upper-case letter A-Z *)
Definition isUpper (c : ascii) : bool :=
  let n := nat_of_ascii c in ((65 <=? n) && (n <=? 90))%nat.

(** a character [sanitizeFileName] leaves alone *)
Definition isPlain (c : ascii) : bool :=
  negb (isReserved c) && negb (Js.isSpace c) && negb (isUpper c).

(** the string a [FileType] is in the code *)
Definition typeName (t : FileType) : string :=
  match t with
  | image => "image"
  | page => "page"
  | unknown => "unknown"
  end.

(** the [reduce] of [displayExplorationStats]:
    [acc[wf.type] = (acc[wf.type] || 0) + 1] *)
Definition countTypes (ws : list WireframeInfo) : gmap string nat :=
  fold_left
    (fun (acc : gmap string nat) wf =>
       <[ typeName (type wf) :=
            (default 0 (acc !! typeName (type wf)) + 1)%nat ]> acc)
    ws ∅.

(** the record is of kind [t] *)
Definition kindIs (t : FileType) (wf : WireframeInfo) : bool :=
  String.eqb (typeName (type wf)) (typeName t).

(** what the request for [u] adds to the inventory in [explorePage] *)
Definition pageRecords (get : string -> Response) (u : string)
    : list WireframeInfo :=
  match get u with
  | Rejected => []
  | Resolved status data =>
      if negb (status =? 200) then [] else parseWireframes data (Some u)
  end.

(** every link of the page at [x] is in the visited set of [r] *)
Definition linksVisited (get : string -> Response) (r : Reader)
    (x : string) : Prop :=
  forall data l,
    get x = Resolved 200 data -> In l (findLinksToExplore data x) ->
    l ∈ visitedUrls r.

(** ** Facts about the string methods *)

Lemma startsWith_spec (s p : string) :
  Js.startsWith s p = true <-> exists rest, s = p +:+ rest.
Proof.
  revert s. induction p as [|a p IH]; intros s; simpl.
  - split; [intros _; exists s; reflexivity | reflexivity].
  - destruct s as [|b s].
    + split; [discriminate | intros [rest H]; discriminate].
    + destruct (Ascii.eqb_spec a b) as [->|Hne].
      * rewrite IH. split; intros [rest H]; exists rest.
        -- by rewrite H.
        -- by injection H.
      * split; [discriminate | intros [rest H]; injection H; congruence].
Qed.

Lemma append_cons (x : ascii) (a b : string) :
  String x a +:+ b = String x (a +:+ b).
Proof. reflexivity. Qed.

Lemma append_assoc (a b c : string) : (a +:+ b) +:+ c = a +:+ (b +:+ c).
Proof.
  induction a as [|x a IH]; [reflexivity |].
  rewrite !append_cons. by f_equal.
Qed.

(** [includes] is the substring test *)
Lemma includes_spec (s sub : string) :
  Js.includes s sub = true <->
  exists before after, s = before +:+ sub +:+ after.
Proof.
  induction s as [|c s IH]; simpl.
  - rewrite orb_false_r, startsWith_spec. split.
    + intros [rest H]. exists "", rest. exact H.
    + intros [before [after H]].
      destruct before; [by exists after | discriminate].
  - rewrite orb_true_iff, startsWith_spec, IH. split.
    + intros [[rest H] | [before [after H]]].
      * exists "", rest. exact H.
      * exists (String c before), after. rewrite append_cons. by rewrite H.
    + intros [before [after H]]. destruct before as [|b before].
      * left. by exists after.
      * right. exists before, after. rewrite append_cons in H.
        by injection H.
Qed.

Lemma includes_app_r (p s sub : string) :
  Js.includes s sub = true -> Js.includes (p +:+ s) sub = true.
Proof.
  rewrite !includes_spec. intros [before [after ->]].
  exists (p +:+ before), after. by rewrite append_assoc.
Qed.

Lemma toLowerCase_app (a b : string) :
  Js.toLowerCase (a +:+ b) = Js.toLowerCase a +:+ Js.toLowerCase b.
Proof.
  induction a as [|x a IH]; [reflexivity |].
  rewrite append_cons. simpl. rewrite append_cons. by f_equal.
Qed.

(** the resolved URL ends with the reference it was built from *)
Lemma resolveUrl_suffix (ref : string) (base : option string) :
  exists p, resolveUrl ref base = p +:+ ref.
Proof.
  unfold resolveUrl.
  destruct (Js.startsWith ref "http"); [by exists "" |].
  destruct (Js.startsWith ref "/"); eauto.
Qed.

Lemma includes_lower_resolveUrl (ref sub : string) (base : option string) :
  Js.includes (Js.toLowerCase ref) sub = true ->
  Js.includes (Js.toLowerCase (resolveUrl ref base)) sub = true.
Proof.
  intros H. destruct (resolveUrl_suffix ref base) as [p ->].
  rewrite toLowerCase_app. by apply includes_app_r.
Qed.

(** ** The string methods on examples *)

Example includes_ex1 : Js.includes "https://gytx.dev/a" "gytx.dev" = true.
Proof. reflexivity. Qed.
Example includes_ex2 : Js.includes "abc" "" = true /\ Js.includes "" "" = true.
Proof. split; reflexivity. Qed.
Example lower_ex : Js.toLowerCase "A.PNG?q=Z[" = "a.png?q=z[".
Proof. reflexivity. Qed.
Example lastPart_ex :
  Js.lastPart "a/b/c.png" = "c.png" /\ Js.lastPart "a/b/" = "" /\
  Js.lastPart "plain" = "plain".
Proof. repeat split; reflexivity. Qed.
Example trim_ex : Js.trim "  a b  " = "a b" /\ Js.trim "   " = "".
Proof. split; reflexivity. Qed.
Example regex_ex :
  Js.testLitDigits "page=" "x?page=2" = true /\
  Js.testLitDigits "page=" "x?page=" = false /\
  Js.testLitDigits "page=" "x?page=a&page=7" = true /\
  Js.matchTrailingDir "https://gytx.dev/a/" = true /\
  Js.matchTrailingDir "https://gytx.dev/a//" = false /\
  Js.matchTrailingDir "/" = false.
Proof. repeat split; reflexivity. Qed.

(** ** Asset recognition *)

(** C5 - [isWireframeFile] accepts a URL exactly when its lower-cased form
    contains one of the extensions .png .jpg .jpeg .gif .svg .pdf or one of
    the keywords wireframe, mockup, design, ui, ux, screen, pog; a match of
    either kind is enough. *)
Theorem C5_isWireframeFile_iff (u : string) :
  isWireframeFile u = true <->
  (exists ext, In ext [".png"; ".jpg"; ".jpeg"; ".gif"; ".svg"; ".pdf"] /\
               Js.includes (Js.toLowerCase u) ext = true) \/
  (exists kw,
      In kw ["wireframe"; "mockup"; "design"; "ui"; "ux"; "screen"; "pog"] /\
      Js.includes (Js.toLowerCase u) kw = true).
Proof.
  unfold isWireframeFile. cbv zeta.
  rewrite orb_true_iff, !existsb_exists. split.
  - intros [[ext [Hin H]] | [kw [Hin H]]].
    + left. by exists ext.
    + right. apply orb_true_iff in H as [H | H].
      * exists kw. split; [| exact H].
        unfold wireframeKeywords in Hin. simpl in *. tauto.
      * exists "pog". split; [| exact H]. simpl. tauto.
  - intros [[ext [Hin H]] | [kw [Hin H]]].
    + left. by exists ext.
    + right. simpl in Hin.
      destruct Hin as [<-|[<-|[<-|[<-|[<-|[<-|[<-|[]]]]]]]];
        try (eexists; split; [| rewrite H; reflexivity];
             unfold wireframeKeywords; simpl; tauto).
      exists "wireframe". split; [by left |]. rewrite H. apply orb_true_r.
Qed.

(** ** URL resolution *)

(** C7, as the claim states it, fails for an empty base: the reference is
    not appended to the empty base but to the root URL. *)
Lemma C7_empty_base_counterexample :
  Js.startsWith "page2/" "http" = false /\
  Js.startsWith "page2/" "/" = false /\
  resolveUrl "page2/" (Some "") =
    "https://gytx.dev/wareframes/pog_up_wareframes/page2/" /\
  resolveUrl "page2/" (Some "") <> "" +:+ "page2/".
Proof. repeat split; try reflexivity. discriminate. Qed.

(** C7 (amended) - [resolveUrl] is total and returns: the reference itself
    when it starts with the four characters http; https://gytx.dev followed
    by the reference when it starts with a slash; otherwise the base
    followed by the reference, where the root URL stands in for a base that
    is omitted or empty. *)
Theorem C7_resolveUrl_cases (base : option string) :
  (forall ref, exists out, resolveUrl ref base = out) /\
  (forall rest, resolveUrl ("http" +:+ rest) base = "http" +:+ rest) /\
  (forall rest,
      resolveUrl ("/" +:+ rest) base = "https://gytx.dev/" +:+ rest) /\
  (forall ref, Js.startsWith ref "http" = false ->
               Js.startsWith ref "/" = false ->
     (forall b, b <> "" -> resolveUrl ref (Some b) = b +:+ ref) /\
     resolveUrl ref None = baseUrl +:+ ref /\
     resolveUrl ref (Some "") = baseUrl +:+ ref).
Proof.
  split; [| split; [| split]].
  - intros ref. by eexists.
  - intros rest. reflexivity.
  - intros rest. reflexivity.
  - intros ref Hhttp Hslash. unfold resolveUrl. rewrite Hhttp, Hslash.
    repeat split. intros b Hb. by destruct b.
Qed.

Lemma C7_resolveUrl_cases_witness :
  resolveUrl "page2/" (Some "https://gytx.dev/a/") = "https://gytx.dev/a/page2/"
  /\ resolveUrl "page2/" None = baseUrl +:+ "page2/".
Proof.
  destruct (C7_resolveUrl_cases None) as [_ [_ [_ H]]].
  destruct (H "page2/" eq_refl eq_refl) as [Hb [Hnone _]].
  split; [| exact Hnone].
  apply (Hb "https://gytx.dev/a/"). discriminate.
Defined.

(** ** What [parseWireframes] returns *)

Lemma isTag_true (t : string) (el : Element) : isTag t el = true <-> tag el = t.
Proof. unfold isTag. apply String.eqb_eq. Qed.

Lemma eqb_empty_false (s : string) : negb (String.eqb s "") = true <-> s <> "".
Proof.
  rewrite negb_true_iff. destruct (String.eqb_spec s ""); split; congruence.
Qed.

Lemma in_pushIfWireframe (mk : Element -> string -> WireframeInfo)
    (a : string) (el : Element) (w : WireframeInfo) :
  In w (pushIfWireframe mk a el) <->
  exists v, attr el a = Some v /\ v <> "" /\ isWireframeFile v = true /\
            w = mk el v.
Proof.
  unfold pushIfWireframe. destruct (attr el a) as [v|].
  - destruct (negb (String.eqb v "") && isWireframeFile v) eqn:E.
    + apply andb_true_iff in E as [E1 E2]. apply eqb_empty_false in E1.
      simpl. split.
      * intros [<- | []]. by exists v.
      * intros [v' [Hv [_ [_ ->]]]]. left. congruence.
    + simpl. split; [tauto |]. intros [v' [Hv [Hne [Hw _]]]].
      injection Hv as <-. apply eqb_empty_false in Hne.
      rewrite Hne, Hw in E. discriminate.
  - simpl. split; [tauto |]. intros [v [Hv _]]. discriminate.
Qed.

Lemma or_iff (A B C D : Prop) : (A <-> C) -> (B <-> D) -> (A \/ B <-> C \/ D).
Proof. tauto. Qed.

Lemma in_parseWireframes (html : Document) (sourceUrl : option string)
    (w : WireframeInfo) :
  In w (parseWireframes html sourceUrl) <->
  (exists el href,
      In el html /\ tag el = "a" /\ attr el "href" = Some href /\
      Js.includes href "." = true /\ isWireframeFile href = true /\
      w = anchorWireframe sourceUrl el href) \/
  (exists el src,
      In el html /\ tag el = "img" /\ attr el "src" = Some src /\
      src <> "" /\ isWireframeFile src = true /\
      w = imgWireframe sourceUrl el src).
Proof.
  unfold parseWireframes, select.
  rewrite in_app_iff, !in_flat_map.
  apply or_iff; split.
  - intros [el [Hel Hw]]. apply filter_In in Hel as [Hin Hm].
    apply in_pushIfWireframe in Hw as [href [Hhref [_ [Hwf ->]]]].
    simpl in Hm. apply andb_true_iff in Hm as [Ht Hdot].
    apply isTag_true in Ht. rewrite Hhref in Hdot.
    exists el, href. done.
  - intros [el [href [Hin [Ht [Hhref [Hdot [Hwf ->]]]]]]].
    exists el. split.
    + apply filter_In. split; [exact Hin |]. simpl.
      apply andb_true_iff. split; [by apply isTag_true |]. by rewrite Hhref.
    + apply in_pushIfWireframe. exists href. repeat split; try done.
      intros ->. discriminate.
  - intros [el [Hel Hw]]. apply filter_In in Hel as [Hin Hm].
    apply in_pushIfWireframe in Hw as [src [Hsrc [Hne [Hwf ->]]]].
    simpl in Hm. apply isTag_true in Hm.
    exists el, src. done.
  - intros [el [src [Hin [Ht [Hsrc [Hne [Hwf ->]]]]]]].
    exists el. split.
    + apply filter_In. split; [exact Hin |]. simpl. by apply isTag_true.
    + apply in_pushIfWireframe. by exists src.
Qed.

Lemma select_skip (sel : Selector) (pre post : Document) (el : Element) :
  matches sel el = false ->
  select (pre ++ el :: post) sel = select (pre ++ post) sel.
Proof.
  intros H. unfold select. rewrite !List.filter_app. simpl. by rewrite H.
Qed.

Lemma getFileType_spec (u : string) :
  getFileType u =
  if existsb (fun ext => Js.includes (Js.toLowerCase u) ext)
             [".png"; ".jpg"; ".jpeg"; ".gif"; ".svg"]
  then image
  else if Js.includes (Js.toLowerCase u) ".pdf" then page else unknown.
Proof.
  unfold getFileType. cbv zeta. simpl existsb.
  by rewrite orb_false_r, !orb_assoc.
Qed.

(** C6, as the claim states it, fails for records found through an image
    source: the kind is [image] although the URL is an asset by keyword
    only and contains no extension. *)
Lemma C6_img_kind_counterexample :
  parseWireframes [img "/ui/logo"] (Some baseUrl) =
    [ {| name := "logo"; url := "https://gytx.dev/ui/logo"; type := image;
         description := Some ""; size_ := None |} ] /\
  existsb (fun ext =>
             Js.includes (Js.toLowerCase "https://gytx.dev/ui/logo") ext)
          wireframeExtensions = false /\
  existsb (fun ext => Js.includes (Js.toLowerCase "/ui/logo") ext)
          wireframeExtensions = false /\
  image <> unknown.
Proof. repeat split; try reflexivity. discriminate. Qed.

(** the kind of the records of one page *)
Lemma parseWireframes_kind (html : Document) (sourceUrl : option string)
    (w : WireframeInfo) :
  In w (parseWireframes html sourceUrl) ->
  (exists el href,
      In el html /\ tag el = "a" /\ attr el "href" = Some href /\
      url w = resolveUrl href sourceUrl /\
      let lower := Js.toLowerCase href in
      let imageExt :=
        existsb (fun ext => Js.includes lower ext)
                [".png"; ".jpg"; ".jpeg"; ".gif"; ".svg"] in
      (imageExt = true -> type w = image) /\
      (imageExt = false -> Js.includes lower ".pdf" = true -> type w = page) /\
      (imageExt = false -> Js.includes lower ".pdf" = false ->
       type w = unknown))
  \/
  (exists el src,
      In el html /\ tag el = "img" /\ attr el "src" = Some src /\
      url w = resolveUrl src sourceUrl /\ type w = image).
Proof.
  intros H. apply in_parseWireframes in H as [H | H].
  - left. destruct H as [el [href [Hin [Ht [Hhref [_ [_ ->]]]]]]].
    exists el, href. repeat split; try done; simpl type;
      rewrite getFileType_spec.
    + by intros ->.
    + by intros -> ->.
    + by intros -> ->.
  - right. destruct H as [el [src [Hin [Ht [Hsrc [_ [_ ->]]]]]]].
    exists el, src. done.
Qed.

(** ** The dot required of anchors *)

(** C10 - an anchor whose href contains no dot contributes nothing to the
    records of a page, whatever keyword the href contains: the page yields
    the same records with and without it.  An image whose source passes
    [isWireframeFile] yields its record with or without a dot. *)
Theorem C10_anchor_needs_dot (pre post : Document) (el : Element)
    (sourceUrl : option string) (ref : string) :
  (tag el = "a" -> attr el "href" = Some ref ->
   Js.includes ref "." = false ->
   parseWireframes (pre ++ el :: post) sourceUrl =
   parseWireframes (pre ++ post) sourceUrl) /\
  (tag el = "img" -> attr el "src" = Some ref -> ref <> "" ->
   isWireframeFile ref = true ->
   In (imgWireframe sourceUrl el ref)
      (parseWireframes (pre ++ el :: post) sourceUrl)).
Proof.
  split.
  - intros Ht Hhref Hdot. unfold parseWireframes.
    rewrite !(select_skip _ pre post el); [reflexivity | |].
    + simpl. unfold isTag. rewrite Ht. reflexivity.
    + simpl. rewrite Hhref, Hdot. apply andb_false_r.
  - intros Ht Hsrc Hne Hwf. apply in_parseWireframes. right.
    exists el, ref. repeat split; try done.
    apply in_elt.
Qed.

Lemma C10_anchor_needs_dot_witness :
  parseWireframes ([] ++ anchor "wireframe" "w" :: [img "pog"]) None =
  parseWireframes ([] ++ [img "pog"]) None /\
  In (imgWireframe None (img "pog") "pog")
     (parseWireframes ([] ++ img "pog" :: []) None).
Proof.
  split.
  - apply (C10_anchor_needs_dot [] [img "pog"] (anchor "wireframe" "w") None
                                "wireframe"); reflexivity.
  - apply (C10_anchor_needs_dot [] [] (img "pog") None "pog");
      try reflexivity. discriminate.
Defined.

(** ** What [findLinksToExplore] returns *)

Lemma setOf_acc (links acc : list string) :
  NoDup acc ->
  let out := fold_left
               (fun acc x => if decide (x ∈ acc) then acc else acc ++ [x])
               links acc in
  NoDup out /\ forall x, In x out <-> In x acc \/ In x links.
Proof.
  revert acc. induction links as [|l links IH]; intros acc Hnd; simpl.
  - split; [exact Hnd | intros x; tauto].
  - destruct (decide (l ∈ acc)) as [Hin | Hnin].
    + destruct (IH acc Hnd) as [H1 H2]. split; [exact H1 |].
      intros x. rewrite H2. apply list_elem_of_In in Hin.
      split; [tauto |]. intros [H | [<- | H]]; tauto.
    + assert (Hnd' : NoDup (acc ++ [l])).
      { apply NoDup_app. split; [exact Hnd |]. split.
        - intros x Hx Hx'. apply list_elem_of_singleton in Hx'. congruence.
        - apply NoDup_singleton. }
      destruct (IH _ Hnd') as [H1 H2]. split; [exact H1 |].
      intros x. rewrite H2, in_app_iff. simpl. tauto.
Qed.

Lemma NoDup_setOf (links : list string) : NoDup (setOf links).
Proof. apply (setOf_acc links []). constructor. Qed.

Lemma in_setOf (links : list string) (x : string) :
  In x (setOf links) <-> In x links.
Proof.
  destruct (setOf_acc links [] (NoDup_nil_2 (A:=string))) as [_ H].
  unfold setOf. rewrite H. simpl. tauto.
Qed.

Lemma in_pushIfLink (keep : string -> string -> bool) (currentUrl : string)
    (el : Element) (l : string) :
  In l (pushIfLink keep currentUrl el) <->
  exists href, attr el "href" = Some href /\ href <> "" /\
               l = resolveUrl href (Some currentUrl) /\
               keep l currentUrl = true.
Proof.
  unfold pushIfLink. destruct (attr el "href") as [href|].
  - destruct (String.eqb_spec href "") as [-> | Hne].
    + simpl. split; [tauto |]. intros [h [Hh [Hne _]]]. congruence.
    + cbv zeta.
      destruct (keep (resolveUrl href (Some currentUrl)) currentUrl) eqn:E.
      * simpl. split.
        -- intros [<- | []]. by exists href.
        -- intros [h [Hh [_ [-> _]]]]. left. congruence.
      * simpl. split; [tauto |]. intros [h [Hh [_ [-> Hk]]]].
        injection Hh as <-. congruence.
  - simpl. split; [tauto |]. intros [h [Hh _]]. discriminate.
Qed.

Lemma paginationSelectors_anchor (sel : Selector) (el : Element) :
  In sel paginationSelectors -> matches sel el = true -> tag el = "a".
Proof.
  intros Hin Hm. apply isTag_true. unfold paginationSelectors in Hin.
  simpl in Hin.
  repeat (destruct Hin as [<- | Hin];
          [simpl in Hm; by apply andb_true_iff in Hm as [Hm _] |]).
  destruct Hin.
Qed.

Lemma in_findLinksToExplore (html : Document) (currentUrl l : string) :
  In l (findLinksToExplore html currentUrl) <->
  exists el href,
    In el html /\ tag el = "a" /\ attr el "href" = Some href /\ href <> "" /\
    l = resolveUrl href (Some currentUrl) /\
    (shouldExploreLink l currentUrl = true \/
     (isValidPaginationLink l currentUrl = true /\
      exists sel, In sel paginationSelectors /\ matches sel el = true)).
Proof.
  unfold findLinksToExplore. cbv zeta.
  rewrite in_setOf, in_app_iff. unfold findPaginationLinks, select.
  split.
  - intros [H | H].
    + apply in_flat_map in H as [el [Hel Hl]].
      apply filter_In in Hel as [Hin Hm].
      apply in_pushIfLink in Hl as [href [Hhref [Hne [-> Hk]]]].
      simpl in Hm. apply andb_true_iff in Hm as [Ht _].
      apply isTag_true in Ht. exists el, href. tauto.
    + apply in_flat_map in H as [sel [Hsel H]].
      apply in_flat_map in H as [el [Hel Hl]].
      apply filter_In in Hel as [Hin Hm].
      apply in_pushIfLink in Hl as [href [Hhref [Hne [-> Hk]]]].
      exists el, href. repeat split; try done.
      * by apply (paginationSelectors_anchor sel).
      * right. split; [exact Hk |]. by exists sel.
  - intros [el [href [Hin [Ht [Hhref [Hne [-> [Hk | [Hk Hsel]]]]]]]]].
    + left. apply in_flat_map. exists el. split.
      * apply filter_In. split; [exact Hin |]. simpl.
        apply andb_true_iff. split; [by apply isTag_true |].
        by rewrite Hhref.
      * apply in_pushIfLink. by exists href.
    + right. destruct Hsel as [sel [Hsel Hm]].
      apply in_flat_map. exists sel. split; [exact Hsel |].
      apply in_flat_map. exists el. split.
      * apply filter_In. by split.
      * apply in_pushIfLink. by exists href.
Qed.

Lemma extension_not_followable (ref currentUrl : string)
    (base : option string) :
  existsb (fun ext => Js.includes (Js.toLowerCase ref) ext)
          wireframeExtensions = true ->
  shouldExploreLink (resolveUrl ref base) currentUrl = false.
Proof.
  intros H. apply existsb_exists in H as [ext [Hin Hext]].
  unfold shouldExploreLink.
  destruct (negb (Js.includes (resolveUrl ref base) "gytx.dev"));
    [reflexivity |].
  assert (Hd : existsb
                 (fun ext => Js.includes
                               (Js.toLowerCase (resolveUrl ref base)) ext)
                 directFileExtensions = true).
  { apply existsb_exists. exists ext. split.
    - unfold wireframeExtensions in Hin. unfold directFileExtensions.
      simpl in *. tauto.
    - by apply includes_lower_resolveUrl. }
  by rewrite Hd.
Qed.

(** ** The three tests are independent *)

(** C8, as the claim states it, fails: the link design.html is recorded as
    an asset (keyword design) and scheduled for exploration (extension
    .html), and the link ?page=2 is produced once as followable and three
    times as pagination. *)
Lemma C8_double_classification_counterexample :
  map url (parseWireframes [anchor "design.html" "d"] (Some baseUrl)) =
    ["https://gytx.dev/wareframes/pog_up_wareframes/design.html"] /\
  findLinksToExplore [anchor "design.html" "d"] baseUrl =
    ["https://gytx.dev/wareframes/pog_up_wareframes/design.html"] /\
  flat_map (pushIfLink shouldExploreLink baseUrl)
           (select [anchor "?page=2" "Suivant"] (HasAttr "a" "href")) =
    ["https://gytx.dev/wareframes/pog_up_wareframes/?page=2"] /\
  findPaginationLinks [anchor "?page=2" "Suivant"] baseUrl =
    ["https://gytx.dev/wareframes/pog_up_wareframes/?page=2";
     "https://gytx.dev/wareframes/pog_up_wareframes/?page=2";
     "https://gytx.dev/wareframes/pog_up_wareframes/?page=2"].
Proof. repeat split; vm_compute; reflexivity. Qed.

(** C8 (amended) - the asset test reads the raw attribute, the followable
    and the pagination tests read the resolved URL, and each is applied on
    its own, so a link may be an asset and also be scheduled, and may be
    produced as followable and as pagination.  What the code guarantees:
    the scheduled list has no duplicates; it holds exactly the resolved
    non-empty hrefs of anchors that pass [shouldExploreLink], or pass
    [isValidPaginationLink] on an anchor matched by a pagination selector;
    and a reference that contains an asset extension never passes
    [shouldExploreLink]. *)
Theorem C8_link_classes (html : Document) (currentUrl : string) :
  NoDup (findLinksToExplore html currentUrl) /\
  (forall l,
      In l (findLinksToExplore html currentUrl) <->
      exists el href,
        In el html /\ tag el = "a" /\ attr el "href" = Some href /\
        href <> "" /\ l = resolveUrl href (Some currentUrl) /\
        (shouldExploreLink l currentUrl = true \/
         (isValidPaginationLink l currentUrl = true /\
          exists sel, In sel paginationSelectors /\ matches sel el = true)))
  /\
  (forall ref,
      existsb (fun ext => Js.includes (Js.toLowerCase ref) ext)
              wireframeExtensions = true ->
      shouldExploreLink (resolveUrl ref (Some currentUrl)) currentUrl = false).
Proof.
  split; [apply NoDup_setOf |]. split.
  - intros l. apply in_findLinksToExplore.
  - intros ref. apply extension_not_followable.
Qed.

Lemma C8_link_classes_witness :
  shouldExploreLink (resolveUrl "/foo.png" (Some baseUrl)) baseUrl = false.
Proof.
  destruct (C8_link_classes [anchor "/foo.png" "wireframe"] baseUrl)
    as [_ [_ H]].
  apply (H "/foo.png"). reflexivity.
Defined.

(** ** Every run is a sequence of page steps *)

Section CrawlFacts.

Variable get : string -> Response.

Lemma step_requests (r r' : Reader) :
  step get r r' -> exists u, requests r' = requests r ++ [u].
Proof. intros [u r0 _ _ _ | u r0 data _ _ _]; by exists u. Qed.

Lemma steps_requests (r r' : Reader) :
  rtc (step get) r r' -> exists us, requests r' = requests r ++ us.
Proof.
  induction 1 as [r | r r1 r2 H1 _ [us IH]].
  - exists []. by rewrite app_nil_r.
  - destruct (step_requests _ _ H1) as [u Hu].
    exists (u :: us). rewrite IH, Hu. by rewrite <- app_assoc.
Qed.

Lemma scheduled_steps (r r' : Reader) (u : string) :
  rtc (step get) r r' -> scheduled get r u -> scheduled get r' u.
Proof.
  intros Hs [-> | [cur [data [Hin [Hget Hl]]]]]; [by left | right].
  destruct (steps_requests _ _ Hs) as [us ->].
  exists cur, data. repeat split; try done.
  apply in_app_iff. by left.
Qed.

Lemma forLinks_steps (explore : string -> Reader -> Outcome) :
  (forall l r, scheduled get r l ->
               rtc (step get) r (readerOf (explore l r))) ->
  forall links r,
    (forall l, In l links -> scheduled get r l) ->
    rtc (step get) r (readerOf (forLinks explore links r)).
Proof.
  intros Hexplore. induction links as [|l rest IH]; intros r Hsched; simpl.
  - apply rtc_refl.
  - destruct (decide (l ∈ visitedUrls r)).
    + apply IH. intros l' Hl'. apply Hsched. by right.
    + pose proof (Hexplore l r (Hsched l (or_introl eq_refl))) as Hl.
      destruct (explore l r) as [r' | r']; simpl in Hl; [| exact Hl].
      eapply rtc_trans; [exact Hl |].
      apply IH. intros l' Hl'.
      eapply scheduled_steps; [exact Hl |]. apply Hsched. by right.
Qed.

Lemma explorePage_steps (depth : nat) :
  forall u r, scheduled get r u ->
              rtc (step get) r (readerOf (explorePage get depth u r)).
Proof.
  induction depth as [|depth IH]; intros u r Hu; simpl.
  - apply rtc_refl.
  - destruct (decide (u ∈ visitedUrls r)) as [|Hnew]; [apply rtc_refl |].
    destruct (get u) as [|status data] eqn:Hget.
    + apply rtc_once, step_failed; try done. by rewrite Hget.
    + destruct (Z.eqb_spec status 200) as [-> | Hne]; simpl.
      * eapply rtc_l; [by apply (step_parsed get u r data) |].
        apply forLinks_steps; [exact IH |].
        intros l Hl. right. exists u, data. repeat split; try done.
        simpl. apply in_app_iff. right. by left.
      * apply rtc_once, step_failed; try done.
        rewrite Hget. intros data' H. injection H as H _. congruence.
Qed.

Lemma exploreAllPages_steps (depth : nat) :
  rtc (step get) newReader (crawl get depth).
Proof. apply explorePage_steps. by left. Qed.

End CrawlFacts.

(** ** What holds all along a run *)

Lemma shouldExploreLink_domain (u currentUrl : string) :
  shouldExploreLink u currentUrl = true -> Js.includes u "gytx.dev" = true.
Proof.
  unfold shouldExploreLink. by destruct (Js.includes u "gytx.dev").
Qed.

Lemma isValidPaginationLink_domain (u currentUrl : string) :
  isValidPaginationLink u currentUrl = true -> Js.includes u "gytx.dev" = true.
Proof.
  unfold isValidPaginationLink. by destruct (Js.includes u "gytx.dev").
Qed.

Lemma findLinksToExplore_domain (html : Document) (currentUrl l : string) :
  In l (findLinksToExplore html currentUrl) ->
  shouldExploreLink l currentUrl = true \/
  isValidPaginationLink l currentUrl = true.
Proof.
  intros H. apply in_findLinksToExplore in H
    as [el [href [_ [_ [_ [_ [_ [H | [H _]]]]]]]]]; tauto.
Qed.

Section Invariant.

Variable get : string -> Response.

Lemma scheduled_domain (r : Reader) (u : string) :
  scheduled get r u -> Js.includes u "gytx.dev" = true.
Proof.
  intros [-> | [cur [data [_ [_ Hl]]]]]; [reflexivity |].
  apply findLinksToExplore_domain in Hl as [H | H].
  - by apply shouldExploreLink_domain in H.
  - by apply isValidPaginationLink_domain in H.
Qed.

Lemma consistent_new : consistent get newReader.
Proof.
  split; simpl; try done.
  - constructor.
Qed.

Lemma consistent_visit (r : Reader) (u : string) :
  consistent get r -> u ∉ visitedUrls r -> scheduled get r u ->
  (forall data, get u <> Resolved 200 data) ->
  consistent get (visit u r).
Proof.
  intros [Hnd Hvis Hdom Hkept Horig] Hnew Hsched Hfail. split; simpl.
  - apply NoDup_app. split; [exact Hnd |]. split; [| apply NoDup_singleton].
    intros x Hx Hx'. apply list_elem_of_singleton in Hx' as ->.
    apply list_elem_of_In, Hvis in Hx. contradiction.
  - intros x. rewrite in_app_iff, Hvis, elem_of_union, elem_of_singleton.
    simpl. split; [intros [H | [-> | []]] | intros [-> | H]]; tauto.
  - intros x Hx. apply in_app_iff in Hx as [Hx | [<- | []]].
    + by apply Hdom.
    + by apply (scheduled_domain r).
  - intros x data w Hx Hget Hw. apply in_app_iff in Hx as [Hx | [<- | []]].
    + by apply (Hkept x data).
    + by destruct (Hfail data).
  - intros w Hw. destruct (Horig w Hw) as [x [data [Hx [Hget Hin]]]].
    exists x, data. repeat split; try done. apply in_app_iff. by left.
Qed.

Lemma consistent_parsed (r : Reader) (u : string) (data : Document) :
  consistent get r -> u ∉ visitedUrls r -> scheduled get r u ->
  get u = Resolved 200 data ->
  consistent get (pushAll (parseWireframes data (Some u)) (visit u r)).
Proof.
  intros [Hnd Hvis Hdom Hkept Horig] Hnew Hsched Hget. split; simpl.
  - apply NoDup_app. split; [exact Hnd |]. split; [| apply NoDup_singleton].
    intros x Hx Hx'. apply list_elem_of_singleton in Hx' as ->.
    apply list_elem_of_In, Hvis in Hx. contradiction.
  - intros x. rewrite in_app_iff, Hvis, elem_of_union, elem_of_singleton.
    simpl. split; [intros [H | [-> | []]] | intros [-> | H]]; tauto.
  - intros x Hx. apply in_app_iff in Hx as [Hx | [<- | []]].
    + by apply Hdom.
    + by apply (scheduled_domain r).
  - intros x data' w Hx Hget' Hw. apply in_app_iff.
    apply in_app_iff in Hx as [Hx | [<- | []]].
    + left. by apply (Hkept x data').
    + right. rewrite Hget in Hget'. by injection Hget' as <-.
  - intros w Hw. apply in_app_iff in Hw as [Hw | Hw].
    + destruct (Horig w Hw) as [x [data' [Hx [Hget' Hin]]]].
      exists x, data'. repeat split; try done. apply in_app_iff. by left.
    + exists u, data. repeat split; try done.
      apply in_app_iff. right. by left.
Qed.

Lemma consistent_steps (r r' : Reader) :
  rtc (step get) r r' -> consistent get r -> consistent get r'.
Proof.
  induction 1 as [r | r r1 r2 H1 _ IH]; [done |].
  intros Hr. apply IH.
  destruct H1; [by apply consistent_visit | by apply consistent_parsed].
Qed.

(** the reader of a run of [exploreAllPages], however far the run got *)
Lemma consistent_run (depth : nat) :
  consistent get (crawl get depth).
Proof.
  eapply consistent_steps; [apply exploreAllPages_steps | apply consistent_new].
Qed.

End Invariant.

(** ** The visited set *)

Lemma forLinks_visited_mono (explore : string -> Reader -> Outcome) :
  (forall l r, visitedUrls r ⊆ visitedUrls (readerOf (explore l r))) ->
  forall links r,
    visitedUrls r ⊆ visitedUrls (readerOf (forLinks explore links r)).
Proof.
  intros Hexplore. induction links as [|l rest IH]; intros r; simpl.
  - done.
  - destruct (decide (l ∈ visitedUrls r)); [apply IH |].
    pose proof (Hexplore l r) as Hl.
    destruct (explore l r) as [r' | r']; simpl in Hl; [| exact Hl].
    etrans; [exact Hl | apply IH].
Qed.

Lemma explorePage_visited_mono (get : string -> Response) (depth : nat) :
  forall u r,
    visitedUrls r ⊆ visitedUrls (readerOf (explorePage get depth u r)).
Proof.
  induction depth as [|depth IH]; intros u r; simpl; [done |].
  destruct (decide (u ∈ visitedUrls r)); [done |].
  assert (Hv : visitedUrls r ⊆ visitedUrls (visit u r))
    by (simpl; apply union_subseteq_r).
  destruct (get u) as [|status data]; [exact Hv |].
  destruct (negb (status =? 200)); [exact Hv |].
  etrans; [exact Hv |].
  apply (forLinks_visited_mono _ IH _
           (pushAll (parseWireframes data (Some u)) (visit u r))).
Qed.

(** C1 - in every run of [exploreAllPages], however far it got, no URL was
    handed to [axios.get] twice, and the URLs requested are exactly the
    members of the visited set.  The gate behind it: a call of
    [explorePage] on a visited URL leaves the reader as it is, a call on a
    fresh URL adds it to the visited set with its request, and no call
    removes a URL from the visited set. *)
Theorem C1_each_url_fetched_once (get : string -> Response) (depth : nat) :
  NoDup (requests (crawl get depth)) /\
  (forall u, In u (requests (crawl get depth)) <->
             u ∈ visitedUrls (crawl get depth)) /\
  (forall u r, u ∈ visitedUrls r ->
               readerOf (explorePage get depth u r) = r) /\
  (forall u r, u ∉ visitedUrls r ->
               u ∈ visitedUrls (readerOf (explorePage get (S depth) u r))) /\
  (forall u r,
      visitedUrls r ⊆ visitedUrls (readerOf (explorePage get depth u r))).
Proof.
  destruct (consistent_run get depth) as [Hnd Hvis _ _ _].
  split; [exact Hnd |]. split; [exact Hvis |]. split; [| split].
  - intros u r Hu. destruct depth; simpl; [done |].
    by destruct (decide (u ∈ visitedUrls r)).
  - intros u r Hu.
    assert (Hv : u ∈ visitedUrls (visit u r))
      by (simpl; apply elem_of_union_l, elem_of_singleton; reflexivity).
    simpl. destruct (decide (u ∈ visitedUrls r)); [done |].
    destruct (get u) as [|status data]; [exact Hv |].
    destruct (negb (status =? 200)); [exact Hv |].
    apply (forLinks_visited_mono _ (explorePage_visited_mono get depth) _
             (pushAll (parseWireframes data (Some u)) (visit u r))).
    exact Hv.
  - apply explorePage_visited_mono.
Qed.

Lemma C1_each_url_fetched_once_witness :
  requests (crawl webCycle 5) =
    [ "https://gytx.dev/wareframes/pog_up_wareframes/";
      "https://gytx.dev/wareframes/pog_up_wareframes/a/";
      "https://gytx.dev/wareframes/pog_up_wareframes/a/b.html" ] /\
  NoDup (requests (crawl webCycle 5)).
Proof.
  split; [vm_compute; reflexivity |].
  apply (C1_each_url_fetched_once webCycle 5).
Defined.

(** ** The domain gate *)

(** every URL requested in a run contains the text gytx.dev *)
Lemma requested_passed_gate (get : string -> Response) (depth : nat)
    (u : string) :
  In u (requests (crawl get depth)) ->
  Js.includes u "gytx.dev" = true.
Proof. apply (requests_domain get _ (consistent_run get depth)). Qed.

(** C3 - the gate of [shouldExploreLink] looks for the text gytx.dev
    anywhere in the URL, so a link to another host whose path names the
    domain is explored: on [webExternalHost] the run requests
    https://otherhost.com/gytx.dev/, whose host is otherhost.com. *)
Theorem C3_external_host_is_fetched :
  exists r,
    exploreAllPages webExternalHost 2 newReader = Returned r /\
    requests r = [ "https://gytx.dev/wareframes/pog_up_wareframes/";
                   "https://otherhost.com/gytx.dev/" ] /\
    shouldExploreLink "https://otherhost.com/gytx.dev/" baseUrl = true /\
    specHost "https://otherhost.com/gytx.dev/" = "otherhost.com" /\
    specHost baseUrl = "gytx.dev".
Proof.
  eexists. split; [vm_compute; reflexivity |].
  repeat split; vm_compute; reflexivity.
Qed.

(** C4, as the claim states it, fails: the link to
    https://otherhost.com/image.png found on the root page is not fetched,
    but it is added to the inventory. *)
Lemma C4_external_asset_counterexample :
  exists r,
    exploreAllPages webExternalAsset 2 newReader = Returned r /\
    requests r = [ "https://gytx.dev/wareframes/pog_up_wareframes/" ] /\
    allWireframes r =
      [ {| name := "partner"; url := "https://otherhost.com/image.png";
           type := image; description := Some "partner"; size_ := None |} ] /\
    Js.includes "https://otherhost.com/image.png" "gytx.dev" = false /\
    specHost "https://otherhost.com/image.png" = "otherhost.com".
Proof.
  eexists. split; [vm_compute; reflexivity |].
  repeat split; vm_compute; reflexivity.
Qed.

(** C4 (amended) - in every run, a URL that does not contain the text
    gytx.dev (such as https://otherhost.com/image.png) is never requested.
    The inventory applies no domain test: every anchor of a fetched page
    whose href contains a dot and passes [isWireframeFile], and every image
    whose non-empty source passes it, has its record in the inventory,
    whatever host the resolved URL names. *)
Theorem C4_outside_links (get : string -> Response) (depth : nat) :
  (forall u, Js.includes u "gytx.dev" = false ->
             ~ In u (requests (crawl get depth))) /\
  (forall u data el ref,
      In u (requests (crawl get depth)) ->
      get u = Resolved 200 data -> In el data ->
      (tag el = "a" -> attr el "href" = Some ref ->
       Js.includes ref "." = true -> isWireframeFile ref = true ->
       In (anchorWireframe (Some u) el ref)
          (allWireframes (crawl get depth))) /\
      (tag el = "img" -> attr el "src" = Some ref -> ref <> "" ->
       isWireframeFile ref = true ->
       In (imgWireframe (Some u) el ref)
          (allWireframes (crawl get depth)))).
Proof.
  pose proof (consistent_run get depth) as [_ _ Hdom Hkept _]. split.
  - intros u Hout Hin. apply Hdom in Hin. congruence.
  - intros u data el ref Hu Hget Hel. split.
    + intros Ht Hhref Hdot Hwf. apply (Hkept u data); try done.
      apply in_parseWireframes. left. by exists el, ref.
    + intros Ht Hsrc Hne Hwf. apply (Hkept u data); try done.
      apply in_parseWireframes. right. by exists el, ref.
Qed.

Lemma C4_outside_links_witness :
  ~ In "https://otherhost.com/image.png"
       (requests (crawl webExternalAsset 2)) /\
  In (anchorWireframe (Some baseUrl)
        (anchor "https://otherhost.com/image.png" "partner")
        "https://otherhost.com/image.png")
     (allWireframes (crawl webExternalAsset 2)).
Proof.
  destruct (C4_outside_links webExternalAsset 2) as [Hreq Hinv]. split.
  - apply Hreq. reflexivity.
  - apply (Hinv baseUrl
             [anchor "https://otherhost.com/image.png" "partner"]);
      try reflexivity.
    + vm_compute. by left.
    + by left.
Defined.

(** ** The kind of a record *)

(** C6 (amended) - every record of the inventory comes from a page that was
    fetched with status 200.  A record found through an anchor has its kind
    fixed by the extensions contained in the lower-cased href alone: an
    image extension gives [image]; failing that, .pdf gives [page]; failing
    both, [unknown].  A record found through an image source has kind
    [image] whatever its URL is. *)
Theorem C6_kind_by_origin (get : string -> Response) (depth : nat)
    (w : WireframeInfo) :
  In w (allWireframes (crawl get depth)) ->
  exists u html,
    In u (requests (crawl get depth)) /\
    get u = Resolved 200 html /\
    ((exists el href,
         In el html /\ tag el = "a" /\ attr el "href" = Some href /\
         url w = resolveUrl href (Some u) /\
         let lower := Js.toLowerCase href in
         let imageExt :=
           existsb (fun ext => Js.includes lower ext)
                   [".png"; ".jpg"; ".jpeg"; ".gif"; ".svg"] in
         (imageExt = true -> type w = image) /\
         (imageExt = false -> Js.includes lower ".pdf" = true ->
          type w = page) /\
         (imageExt = false -> Js.includes lower ".pdf" = false ->
          type w = unknown))
     \/
     (exists el src,
         In el html /\ tag el = "img" /\ attr el "src" = Some src /\
         url w = resolveUrl src (Some u) /\ type w = image)).
Proof.
  intros Hw.
  destruct (records_origin get _ (consistent_run get depth) w Hw)
    as [u [html [Hu [Hget Hin]]]].
  exists u, html. split; [exact Hu |]. split; [exact Hget |].
  by apply parseWireframes_kind.
Qed.

Lemma C6_kind_by_origin_witness :
  In (imgWireframe (Some (baseUrl +:+ "a/")) (img "b-screen") "b-screen")
     (allWireframes (crawl webCycle 5)) /\
  exists u html,
    In u (requests (crawl webCycle 5)) /\
    webCycle u = Resolved 200 html.
Proof.
  assert (Hin : In (imgWireframe (Some (baseUrl +:+ "a/")) (img "b-screen")
                                 "b-screen")
                   (allWireframes (crawl webCycle 5))).
  { vm_compute. do 3 right. by left. }
  split; [exact Hin |].
  destruct (C6_kind_by_origin webCycle 5 _ Hin) as [u [html [Hu [Hget _]]]].
  by exists u, html.
Defined.

(** ** Failed requests *)

(** C9 - when the request for a fresh URL fails (it is rejected, or the
    status of the response is not 200), [explorePage] returns, the URL is
    marked visited, the inventory is what it was, and the loop over the
    links of the page that named the URL goes on with the links that
    follow it. *)
Theorem C9_failed_fetch_is_not_fatal (get : string -> Response)
    (depth : nat) (u : string) (r : Reader) :
  u ∉ visitedUrls r ->
  (get u = Rejected \/
   exists status data, get u = Resolved status data /\ status <> 200) ->
  explorePage get (S depth) u r = Returned (visit u r) /\
  allWireframes (visit u r) = allWireframes r /\
  (forall rest,
      forLinks (explorePage get (S depth)) (u :: rest) r =
      forLinks (explorePage get (S depth)) rest (visit u r)).
Proof.
  intros Hnew Hfail.
  assert (H : explorePage get (S depth) u r = Returned (visit u r)).
  { simpl. destruct (decide (u ∈ visitedUrls r)); [done |].
    destruct Hfail as [-> | [status [data [-> Hne]]]]; [reflexivity |].
    by destruct (Z.eqb_spec status 200). }
  split; [exact H |]. split; [reflexivity |].
  intros rest. cbn [forLinks].
  destruct (decide (u ∈ visitedUrls r)); [done |]. by rewrite H.
Qed.

Lemma C9_failed_fetch_is_not_fatal_witness :
  explorePage webCycle 1 (baseUrl +:+ "a/b.html") newReader =
  Returned (visit (baseUrl +:+ "a/b.html") newReader).
Proof.
  apply (C9_failed_fetch_is_not_fatal webCycle 0 (baseUrl +:+ "a/b.html")
           newReader).
  - apply not_elem_of_empty.
  - left. reflexivity.
Defined.

(** ** Termination *)

Lemma forLinks_deeper (e1 e2 : string -> Reader -> Outcome) :
  (forall l r r', e1 l r = Returned r' -> e2 l r = Returned r') ->
  forall links r r',
    forLinks e1 links r = Returned r' -> forLinks e2 links r = Returned r'.
Proof.
  intros He. induction links as [|l rest IH]; intros r r'; simpl; [done |].
  destruct (decide (l ∈ visitedUrls r)); [apply IH |].
  destruct (e1 l r) as [r1 | r1] eqn:E1; [| discriminate].
  rewrite (He _ _ _ E1). apply IH.
Qed.

Lemma explorePage_deeper (get : string -> Response) (depth : nat) :
  forall u r r',
    explorePage get depth u r = Returned r' ->
    explorePage get (S depth) u r = Returned r'.
Proof.
  induction depth as [|depth IH]; intros u r r'; [discriminate |].
  intros H. simpl in H. cbn [explorePage].
  destruct (decide (u ∈ visitedUrls r)); [exact H |].
  destruct (get u) as [|status data]; [exact H |].
  destruct (negb (status =? 200)); [exact H |].
  revert H. by apply forLinks_deeper.
Qed.

Lemma explorePage_deeper_le (get : string -> Response) (d d' : nat)
    (u : string) (r r' : Reader) :
  (d <= d')%nat ->
  explorePage get d u r = Returned r' -> explorePage get d' u r = Returned r'.
Proof.
  induction 1 as [|d' _ IH]; [done |].
  intros H. by apply explorePage_deeper, IH.
Qed.

Section Termination.

Variable get : string -> Response.
Variable U : gset string.
Hypothesis finite : forall u, reachable get u -> u ∈ U.

Lemma forLinks_returns (explore : string -> Reader -> Outcome) (n : nat) :
  (forall l r, reachable get l -> (size (U ∖ visitedUrls r) < n)%nat ->
               exists r', explore l r = Returned r' /\
                          visitedUrls r ⊆ visitedUrls r') ->
  forall links r,
    (forall l, In l links -> reachable get l) ->
    (size (U ∖ visitedUrls r) < n)%nat ->
    exists r', forLinks explore links r = Returned r'.
Proof.
  intros Hexplore. induction links as [|l rest IH]; intros r Hreach Hsize;
    simpl.
  - by exists r.
  - assert (Hrest : forall l', In l' rest -> reachable get l')
      by (intros l' Hl'; apply Hreach; by right).
    destruct (decide (l ∈ visitedUrls r)); [by apply IH |].
    destruct (Hexplore l r (Hreach l (or_introl eq_refl)) Hsize)
      as [r' [-> Hsub]].
    apply IH; [exact Hrest |].
    eapply Nat.le_lt_trans; [| exact Hsize].
    apply subseteq_size. intros x Hx.
    apply elem_of_difference in Hx as [Hx1 Hx2].
    apply elem_of_difference. split; [exact Hx1 |].
    intros Hv. by apply Hx2, Hsub.
Qed.

Lemma explorePage_returns (depth : nat) :
  forall u r,
    reachable get u -> (size (U ∖ visitedUrls r) < depth)%nat ->
    exists r', explorePage get depth u r = Returned r' /\
               visitedUrls r ⊆ visitedUrls r'.
Proof.
  induction depth as [|depth IH]; intros u r Hu Hsize; [lia |].
  assert (Hmono : forall r',
             explorePage get (S depth) u r = Returned r' ->
             visitedUrls r ⊆ visitedUrls r').
  { intros r' E. pose proof (explorePage_visited_mono get (S depth) u r) as H.
    by rewrite E in H. }
  cut (exists r', explorePage get (S depth) u r = Returned r').
  { intros [r' E]. exists r'. split; [exact E | by apply Hmono]. }
  clear Hmono. cbn [explorePage].
  destruct (decide (u ∈ visitedUrls r)) as [|Hnew]; [by exists r |].
  destruct (get u) as [|status data] eqn:Hget; [by eexists |].
  destruct (Z.eqb_spec status 200) as [-> | Hne]; simpl; [| by eexists].
  apply (forLinks_returns _ depth IH).
  - intros l Hl. by apply (reachable_link get u data).
  - simpl. apply finite in Hu.
    assert (Hlt : (size (U ∖ ({[u]} ∪ visitedUrls r))
                   < size (U ∖ visitedUrls r))%nat).
    { apply subset_size. split.
      - intros x Hx. apply elem_of_difference in Hx as [Hx1 Hx2].
        apply elem_of_difference. split; [exact Hx1 |].
        intros Hv. by apply Hx2, elem_of_union_r.
      - intros Hsup.
        assert (Hin : u ∈ U ∖ visitedUrls r)
          by (by apply elem_of_difference).
        apply Hsup, elem_of_difference in Hin as [_ Hin].
        by apply Hin, elem_of_union_l, elem_of_singleton. }
    lia.
Qed.

End Termination.

(** C2 - when only finitely many URLs can be reached from the root (all of
    them lie in a finite set [U]), the run of [exploreAllPages] returns:
    once the calls may nest deeper than the size of [U], the result is a
    returned reader, the same for every larger bound. *)
Theorem C2_finite_graph_terminates (get : string -> Response)
    (U : gset string) :
  (forall u, reachable get u -> u ∈ U) ->
  exists r, forall depth, (size U < depth)%nat ->
                          exploreAllPages get depth newReader = Returned r.
Proof.
  intros Hfinite.
  destruct (explorePage_returns get U Hfinite (S (size U)) baseUrl newReader)
    as [r [Hr _]].
  - apply reachable_root.
  - simpl. rewrite difference_empty_L. lia.
  - exists r. intros depth Hd.
    apply (explorePage_deeper_le get (S (size U))); [lia | exact Hr].
Qed.

Lemma in_webCycleUrls (u : string) :
  u ∈ webCycleUrls <->
  u = baseUrl \/ u = baseUrl +:+ "a/" \/ u = baseUrl +:+ "a/b.html".
Proof.
  unfold webCycleUrls. rewrite !elem_of_union, !elem_of_singleton. tauto.
Qed.

Lemma webCycle_finite (u : string) :
  reachable webCycle u -> u ∈ webCycleUrls.
Proof.
  induction 1 as [|cur data l _ IH Hget Hl]; apply in_webCycleUrls.
  - by left.
  - apply in_webCycleUrls in IH as [-> | [-> | ->]]; vm_compute in Hget.
    + injection Hget as <-. vm_compute in Hl.
      destruct Hl as [<- | [<- | []]]; [by left | right; by left].
    + injection Hget as <-. vm_compute in Hl.
      destruct Hl as [<- | [<- | [<- | []]]];
        [by left | right; by left | right; by right].
    + discriminate.
Qed.

Lemma C2_finite_graph_terminates_witness :
  exists r, forall depth, (size webCycleUrls < depth)%nat ->
                          exploreAllPages webCycle depth newReader = Returned r.
Proof.
  apply (C2_finite_graph_terminates webCycle webCycleUrls).
  exact webCycle_finite.
Defined.

(** ** File names *)

Lemma lowerChar_plain (c : ascii) :
  isReserved c = false -> Js.isSpace c = false ->
  isPlain (Js.lowerChar c) = true.
Proof.
  destruct c as [b0 b1 b2 b3 b4 b5 b6 b7].
  destruct b0, b1, b2, b3, b4, b5, b6, b7; vm_compute; congruence.
Qed.


Lemma underscore_plain :
  isReserved "_" = false /\ Js.isSpace "_" = false.
Proof. split; reflexivity. Qed.

Lemma replaceReserved_none (s : string) :
  allChars (fun c => negb (isReserved c)) (replaceReserved s) = true.
Proof.
  induction s as [|c s IH]; simpl; [reflexivity |].
  rewrite IH, andb_true_r. by destruct (isReserved c) eqn:E; [| rewrite E].
Qed.

Lemma replaceSpaceRuns_plain (inRun : bool) (s : string) :
  allChars (fun c => negb (isReserved c)) s = true ->
  allChars (fun c => negb (isReserved c) && negb (Js.isSpace c))
           (replaceSpaceRuns inRun s) = true.
Proof.
  revert inRun. induction s as [|c s IH]; intros inRun; simpl;
    [reflexivity |].
  intros H. apply andb_true_iff in H as [Hc Hs].
  destruct (Js.isSpace c) eqn:E.
  - destruct inRun; simpl; by rewrite ?IH.
  - simpl. by rewrite Hc, E, IH.
Qed.

Lemma toLowerCase_plain (s : string) :
  allChars (fun c => negb (isReserved c) && negb (Js.isSpace c)) s = true ->
  allChars isPlain (Js.toLowerCase s) = true.
Proof.
  induction s as [|c s IH]; simpl; [reflexivity |].
  intros H. apply andb_true_iff in H as [Hc Hs].
  apply andb_true_iff in Hc as [H1 H2].
  apply negb_true_iff in H1, H2.
  by rewrite lowerChar_plain, IH.
Qed.

Lemma sanitizeFileName_plain (s : string) :
  allChars isPlain (sanitizeFileName s) = true.
Proof.
  unfold sanitizeFileName.
  apply toLowerCase_plain, replaceSpaceRuns_plain, replaceReserved_none.
Qed.


Lemma allChars_includes (p : ascii -> bool) (s : string) (c : ascii) :
  allChars p s = true -> p c = false ->
  Js.includes s (String c EmptyString) = false.
Proof.
  intros Hs Hc. induction s as [|a s IH]; [reflexivity |].
  simpl in Hs. apply andb_true_iff in Hs as [Ha Hs].
  simpl. rewrite (IH Hs), orb_false_r.
  destruct (Ascii.eqb_spec c a) as [-> | _]; [congruence | reflexivity].
Qed.

(** X1 - the file name [sanitizeFileName] returns holds no character of
    the class it replaces, no white space and no upper-case letter; in
    particular it holds neither a slash nor a backslash, so it names no
    sub-directory. *)
Theorem sanitizeFileName_safe (fileName : string) :
  allChars isPlain (sanitizeFileName fileName) = true /\
  Js.includes (sanitizeFileName fileName) "/" = false /\
  Js.includes (sanitizeFileName fileName)
              (String (ascii_of_nat 92) EmptyString) = false /\
  Js.includes (sanitizeFileName fileName) " " = false.
Proof.
  pose proof (sanitizeFileName_plain fileName) as H.
  split; [exact H |].
  repeat split; by apply (allChars_includes isPlain).
Qed.






(** ** Names and descriptions of records *)

Lemma lastPart_cons (c : ascii) (s : string) :
  Js.lastPart (String c s) =
  if Js.includes s "/" then Js.lastPart s
  else if Ascii.eqb c "/" then s else String c s.
Proof. reflexivity. Qed.

Lemma includes_slash_cons (c : ascii) (s : string) :
  Js.includes (String c s) "/" = Ascii.eqb c "/" || Js.includes s "/".
Proof.
  change (Js.includes (String c s) "/")
    with ((if Ascii.eqb "/" c then true else false) || Js.includes s "/").
  rewrite (Ascii.eqb_sym "/" c). by destruct (Ascii.eqb c "/").
Qed.

Lemma lastPart_no_slash (u : string) :
  Js.includes (Js.lastPart u) "/" = false.
Proof.
  induction u as [|c s IH]; [reflexivity |].
  rewrite lastPart_cons. destruct (Js.includes s "/") eqn:E; [exact IH |].
  destruct (Ascii.eqb c "/") eqn:Ec; [exact E |].
  by rewrite includes_slash_cons, Ec, E.
Qed.

Lemma endsWith_cons (c : ascii) (s suf : string) :
  Js.endsWith s suf = true -> Js.endsWith (String c s) suf = true.
Proof. intros H. simpl. rewrite H. apply orb_true_r. Qed.

Lemma lastPart_split (u : string) :
  exists dir, u = dir +:+ Js.lastPart u /\
              (dir = "" \/ Js.endsWith dir "/" = true).
Proof.
  induction u as [|c s [dir [Hs Hdir]]]; [exists ""; by split; [| left] |].
  rewrite lastPart_cons. destruct (Js.includes s "/") eqn:E.
  - exists (String c dir). split; [by rewrite append_cons, <- Hs |].
    right. destruct Hdir as [-> | Hdir]; [| by apply endsWith_cons].
    change ("" +:+ Js.lastPart s) with (Js.lastPart s) in Hs.
    rewrite Hs, lastPart_no_slash in E. discriminate.
  - destruct (Ascii.eqb_spec c "/") as [-> | _].
    + exists "/". split; [reflexivity | by right].
    + exists "". split; [reflexivity | by left].
Qed.

(** X4 - [extractFileName] never returns the empty name and never a name
    with a slash in it.  The URL is a directory part (empty, or ending with
    a slash) followed by the name returned, unless the URL is nothing but a
    directory part, in which case the name is wireframe. *)
Theorem extractFileName_spec (u : string) :
  extractFileName u <> "" /\
  Js.includes (extractFileName u) "/" = false /\
  exists dir,
    (dir = "" \/ Js.endsWith dir "/" = true) /\
    (u = dir +:+ extractFileName u \/
     (u = dir /\ extractFileName u = "wireframe")).
Proof.
  unfold extractFileName.
  pose proof (lastPart_no_slash u) as Hslash.
  destruct (lastPart_split u) as [dir [Hu Hdir]].
  destruct (Js.lastPart u) as [|c s] eqn:E; simpl.
  - repeat split; [discriminate |]. exists dir. split; [exact Hdir |].
    right. split; [| reflexivity]. rewrite Hu. clear.
    induction dir as [|a dir IH]; [reflexivity |].
    rewrite append_cons. by f_equal.
  - repeat split; [discriminate | exact Hslash |].
    exists dir. split; [exact Hdir | by left].
Qed.


Lemma take_empty (n : nat) (s : string) :
  Js.take (S n) s = "" <-> s = "".
Proof. destruct s; simpl; split; congruence. Qed.



(** ** More facts about runs *)

Lemma pageRecords_failed (get : string -> Response) (u : string) :
  (forall data, get u <> Resolved 200 data) -> pageRecords get u = [].
Proof.
  intros Hfail. unfold pageRecords.
  destruct (get u) as [|status data] eqn:E; [reflexivity |].
  destruct (Z.eqb_spec status 200) as [-> | _]; [| reflexivity].
  by destruct (Hfail data).
Qed.

Lemma pageRecords_parsed (get : string -> Response) (u : string)
    (data : Document) :
  get u = Resolved 200 data ->
  pageRecords get u = parseWireframes data (Some u).
Proof. intros E. unfold pageRecords. by rewrite E. Qed.

(** what a page step does to the three fields *)
Lemma step_inv (get : string -> Response) (r r' : Reader) :
  step get r r' ->
  exists u,
    (u ∉ visitedUrls r) /\ scheduled get r u /\
    requests r' = requests r ++ [u] /\
    visitedUrls r' = {[u]} ∪ visitedUrls r /\
    allWireframes r' = allWireframes r ++ pageRecords get u.
Proof.
  intros [u r0 Hnew Hs Hfail | u r0 data Hnew Hs Hget]; exists u; simpl.
  - rewrite (pageRecords_failed get u Hfail), app_nil_r. done.
  - rewrite (pageRecords_parsed get u data Hget). done.
Qed.

Lemma steps_invariant (get : string -> Response) (P : Reader -> Prop)
    (r r' : Reader) :
  (forall r1 r2, step get r1 r2 -> P r1 -> P r2) ->
  rtc (step get) r r' -> P r -> P r'.
Proof.
  intros Hstep. induction 1 as [r | r r1 r2 H1 _ IH]; [done |].
  intros Hr. by apply IH, (Hstep r).
Qed.

Lemma crawl_invariant (get : string -> Response) (P : Reader -> Prop)
    (depth : nat) :
  (forall r1 r2, step get r1 r2 -> P r1 -> P r2) ->
  P newReader -> P (crawl get depth).
Proof.
  intros Hstep. apply (steps_invariant get P); [exact Hstep |].
  apply exploreAllPages_steps.
Qed.

Lemma resolveUrl_absolute (ref b : string) :
  Js.startsWith b "http" = true ->
  Js.startsWith (resolveUrl ref (Some b)) "http" = true.
Proof.
  intros Hb. unfold resolveUrl.
  destruct (Js.startsWith ref "http") eqn:E; [exact E |].
  destruct (Js.startsWith ref "/"); [reflexivity |].
  apply startsWith_spec in Hb as [rest ->].
  apply startsWith_spec. exists (rest +:+ ref).
  change (Js.orElse ("http" +:+ rest) baseUrl) with ("http" +:+ rest).
  by rewrite append_assoc.
Qed.



(** X6 - the inventory is the records of the pages requested, page after
    page in the order of the requests: nothing else is ever added, nothing
    is removed, and a page whose request failed adds nothing. *)
Theorem inventory_in_request_order (get : string -> Response)
    (depth : nat) :
  allWireframes (crawl get depth) =
  flat_map (pageRecords get) (requests (crawl get depth)).
Proof.
  apply (crawl_invariant get
           (fun r => allWireframes r =
                     flat_map (pageRecords get) (requests r)));
    [| reflexivity].
  intros r1 r2 Hstep Hr1.
  destruct (step_inv get r1 r2 Hstep) as [u [_ [_ [-> [_ ->]]]]].
  rewrite flat_map_app, Hr1. simpl. by rewrite app_nil_r.
Qed.






(** ** What a finished run has covered *)

Lemma scheduled_reachable (get : string -> Response) (r : Reader)
    (u : string) :
  Forall (reachable get) (requests r) -> scheduled get r u ->
  reachable get u.
Proof.
  intros Hr [-> | [cur [data [Hcur [Hget Hl]]]]]; [apply reachable_root |].
  apply (reachable_link get cur data); try done.
  by apply (proj1 (List.Forall_forall _ _) Hr).
Qed.

Lemma requests_reachable (get : string -> Response) (depth : nat) :
  Forall (reachable get) (requests (crawl get depth)).
Proof.
  apply (crawl_invariant get
           (fun r => Forall (reachable get) (requests r))); [| constructor].
  intros r1 r2 Hstep Hr1.
  destruct (step_inv get r1 r2 Hstep) as [u [_ [Hs [-> _]]]].
  apply Forall_app. split; [exact Hr1 |].
  constructor; [| constructor]. by apply (scheduled_reachable get r1).
Qed.

Lemma linksVisited_mono (get : string -> Response) (r r' : Reader)
    (x : string) :
  visitedUrls r ⊆ visitedUrls r' ->
  linksVisited get r x -> linksVisited get r' x.
Proof. intros Hsub H data l Hget Hl. by apply Hsub, (H data). Qed.

Lemma forLinks_closed (get : string -> Response)
    (explore : string -> Reader -> Outcome) :
  (forall l r r',
      explore l r = Returned r' ->
      visitedUrls r ⊆ visitedUrls r' /\ l ∈ visitedUrls r' /\
      forall x, x ∈ visitedUrls r' -> x ∉ visitedUrls r ->
                linksVisited get r' x) ->
  forall links r r',
    forLinks explore links r = Returned r' ->
    visitedUrls r ⊆ visitedUrls r' /\
    (forall l, In l links -> l ∈ visitedUrls r') /\
    forall x, x ∈ visitedUrls r' -> x ∉ visitedUrls r ->
              linksVisited get r' x.
Proof.
  intros Hexplore.
  induction links as [|l rest IH]; intros r r'; simpl.
  - intros [= <-]. split; [done |]. split; [by intros l [] |].
    intros x Hx Hnx. contradiction.
  - destruct (decide (l ∈ visitedUrls r)) as [Hl | Hl].
    + intros H. destruct (IH _ _ H) as [Hsub [Hrest Hnew]].
      split; [exact Hsub |]. split; [| exact Hnew].
      intros l' [<- | Hl']; [by apply Hsub | by apply Hrest].
    + destruct (explore l r) as [r1 | r1] eqn:E; [| discriminate].
      intros H. destruct (Hexplore _ _ _ E) as [Hsub1 [Hl1 Hnew1]].
      destruct (IH _ _ H) as [Hsub [Hrest Hnew]].
      split; [by etrans |]. split.
      * intros l' [<- | Hl']; [by apply Hsub | by apply Hrest].
      * intros x Hx Hnx. destruct (decide (x ∈ visitedUrls r1)) as [H1 | H1].
        -- apply (linksVisited_mono get r1); [exact Hsub |].
           by apply Hnew1.
        -- by apply Hnew.
Qed.

Lemma explorePage_closed (get : string -> Response) (depth : nat) :
  forall u r r',
    explorePage get depth u r = Returned r' ->
    visitedUrls r ⊆ visitedUrls r' /\ u ∈ visitedUrls r' /\
    forall x, x ∈ visitedUrls r' -> x ∉ visitedUrls r ->
              linksVisited get r' x.
Proof.
  induction depth as [|depth IH]; intros u r r'; [discriminate |].
  intros H.
  assert (Hmono : visitedUrls r ⊆ visitedUrls r').
  { pose proof (explorePage_visited_mono get (S depth) u r) as Hm.
    by rewrite H in Hm. }
  split; [exact Hmono |]. simpl in H.
  destruct (decide (u ∈ visitedUrls r)) as [Hu | Hu].
  { injection H as <-. split; [exact Hu |]. intros x Hx Hnx. contradiction. }
  assert (Hfail : (forall data, get u <> Resolved 200 data) ->
                  r' = visit u r ->
                  u ∈ visitedUrls r' /\
                  forall x, x ∈ visitedUrls r' -> x ∉ visitedUrls r ->
                            linksVisited get r' x).
  { intros Hno ->. simpl. split.
    - apply elem_of_union_l. by apply elem_of_singleton.
    - intros x Hx Hnx data l Hget.
      apply elem_of_union in Hx as [Hx | Hx]; [| contradiction].
      apply elem_of_singleton in Hx as ->. by destruct (Hno data). }
  destruct (get u) as [|status data] eqn:Hget.
  { injection H as <-. by apply Hfail. }
  destruct (Z.eqb_spec status 200) as [-> | Hne]; simpl in H.
  - destruct (forLinks_closed get _ IH _ _ _ H) as [Hsub [Hlinks Hnew]].
    assert (Hin : u ∈ visitedUrls r').
    { apply Hsub. simpl. apply elem_of_union_l. by apply elem_of_singleton. }
    split; [exact Hin |]. intros x Hx Hnx.
    destruct (decide (x = u)) as [-> | Hxu].
    + intros data' l Hget' Hl. rewrite Hget in Hget'.
      injection Hget' as <-. by apply Hlinks.
    + apply Hnew; [exact Hx |]. simpl. intros Hx'.
      apply elem_of_union in Hx' as [Hx' | Hx']; [| contradiction].
      by apply elem_of_singleton in Hx'.
  - injection H as <-. apply Hfail; [| reflexivity].
    intros data' Hget'. injection Hget' as E _. contradiction.
Qed.

(** X8 - a run requests only URLs that can be reached from the root through
    links of pages answered with status 200, and a run that returns has
    requested every such URL: the finished crawl covers the link graph
    exactly. *)
Theorem crawl_covers_reachable (get : string -> Response) (depth : nat) :
  Forall (reachable get) (requests (crawl get depth)) /\
  (forall r, exploreAllPages get depth newReader = Returned r ->
             forall u, reachable get u -> In u (requests r)).
Proof.
  split; [apply requests_reachable |].
  intros r Hr u Hu.
  pose proof (consistent_run get depth) as Hc. unfold crawl in Hc.
  rewrite Hr in Hc. simpl in Hc. apply (requests_visited get r Hc).
  destruct (explorePage_closed get depth _ _ _ Hr) as [_ [Hroot Hnew]].
  induction Hu as [|cur data l _ IH Hget Hl]; [exact Hroot |].
  apply (Hnew cur IH (not_elem_of_empty cur) data l Hget Hl).
Qed.

Lemma crawl_covers_reachable_witness :
  In (baseUrl +:+ "a/b.html") (requests (crawl webCycle 5)).
Proof.
  destruct (crawl_covers_reachable webCycle 5) as [_ H].
  apply (H (crawl webCycle 5)).
  - vm_compute. reflexivity.
  - apply (reachable_link webCycle (baseUrl +:+ "a/")
             [anchor baseUrl "home"; anchor (baseUrl +:+ "a/") "here";
              anchor "b.html" "b"; img "b-screen"]).
    + apply (reachable_link webCycle baseUrl
               [anchor baseUrl "home"; anchor "a/" "more"]).
      * apply reachable_root.
      * reflexivity.
      * vm_compute. right. by left.
    + reflexivity.
    + vm_compute. do 2 right. by left.
Defined.

Lemma visited_is_requests (get : string -> Response) (depth : nat) :
  visitedUrls (crawl get depth) = list_to_set (requests (crawl get depth)).
Proof.
  apply set_eq. intros x.
  rewrite elem_of_list_to_set, list_elem_of_In.
  symmetry. apply (requests_visited get _ (consistent_run get depth)).
Qed.

(** X9 - when the URLs reachable from the root all lie in a finite set
    [U], a run makes at most as many requests as [U] has members, however
    the pages link to one another. *)
Theorem requests_bounded (get : string -> Response) (U : gset string)
    (depth : nat) :
  (forall u, reachable get u -> u ∈ U) ->
  (length (requests (crawl get depth)) <= size U)%nat.
Proof.
  intros Hfinite.
  rewrite <- (size_list_to_set (C:=gset string));
    [| apply (requests_nodup get _ (consistent_run get depth))].
  apply subseteq_size. intros x Hx.
  apply elem_of_list_to_set, list_elem_of_In in Hx.
  apply Hfinite.
  by apply (proj1 (List.Forall_forall _ _) (requests_reachable get depth)).
Qed.

Lemma requests_bounded_witness :
  (length (requests (crawl webCycle 5)) <= size webCycleUrls)%nat.
Proof.
  apply (requests_bounded webCycle webCycleUrls 5). exact webCycle_finite.
Defined.

Lemma explorePage_marks (get : string -> Response) (depth : nat)
    (u : string) (r : Reader) :
  u ∈ visitedUrls (readerOf (explorePage get (S depth) u r)).
Proof.
  simpl. destruct (decide (u ∈ visitedUrls r)) as [Hu | Hu]; [exact Hu |].
  assert (Hv : u ∈ visitedUrls (visit u r))
    by (simpl; apply elem_of_union_l, elem_of_singleton; reflexivity).
  destruct (get u) as [|status data]; [exact Hv |].
  destruct (negb (status =? 200)); [exact Hv |].
  apply (forLinks_visited_mono _ (explorePage_visited_mono get depth) _
           (pushAll (parseWireframes data (Some u)) (visit u r))).
  exact Hv.
Qed.

(** X10 - the visited set outlives a run: calling [exploreAllPages] again
    on the same reader returns at once, with no request and no new record,
    so [readWireframes] called twice yields the same inventory and a page
    whose request failed is never tried again. *)
Theorem second_run_is_noop (get : string -> Response) (depth depth' : nat) :
  exploreAllPages get (S depth') (crawl get (S depth)) =
  Returned (crawl get (S depth)).
Proof.
  unfold exploreAllPages at 1. cbn [explorePage].
  destruct (decide (baseUrl ∈ visitedUrls (crawl get (S depth))))
    as [_ | Hn]; [reflexivity |].
  destruct Hn. apply explorePage_marks.
Qed.

(** ** The statistics *)

Lemma typeName_inj (t t' : FileType) : typeName t = typeName t' -> t = t'.
Proof. by destruct t, t'. Qed.

Lemma countTypes_acc (ws : list WireframeInfo) (acc : gmap string nat)
    (t : FileType) :
  fold_left
    (fun (acc : gmap string nat) wf =>
       <[ typeName (type wf) :=
            (default 0 (acc !! typeName (type wf)) + 1)%nat ]> acc)
    ws acc !! typeName t =
  match length (List.filter (kindIs t) ws) with
  | O => acc !! typeName t
  | n => Some (default 0 (acc !! typeName t) + n)%nat
  end.
Proof.
  revert acc. induction ws as [|w ws IH]; intros acc; [reflexivity |].
  cbn [fold_left List.filter]. rewrite IH. unfold kindIs at 2.
  destruct (String.eqb_spec (typeName (type w)) (typeName t)) as [E | E].
  - rewrite E, lookup_insert_eq. cbn [length].
    destruct (length (List.filter (kindIs t) ws)); simpl; f_equal; lia.
  - by rewrite lookup_insert_ne.
Qed.

(** X11 - the table [displayExplorationStats] builds holds, for each kind,
    the number of records of that kind in the inventory, and no entry for a
    kind without records; the three counts add up to the number of
    records. *)
Theorem countTypes_spec (ws : list WireframeInfo) :
  (forall t,
      countTypes ws !! typeName t =
      match length (List.filter (kindIs t) ws) with
      | O => None
      | n => Some n
      end) /\
  (default 0 (countTypes ws !! "image") +
   default 0 (countTypes ws !! "page") +
   default 0 (countTypes ws !! "unknown") = length ws)%nat.
Proof.
  assert (H : forall t,
             countTypes ws !! typeName t =
             match length (List.filter (kindIs t) ws) with
             | O => None
             | n => Some n
             end).
  { intros t. unfold countTypes. rewrite countTypes_acc.
    rewrite lookup_empty. by destruct (length (List.filter (kindIs t) ws)). }
  split; [exact H |].
  change "image" with (typeName image). change "page" with (typeName page).
  change "unknown" with (typeName unknown). rewrite !H.
  assert (Hc : forall t,
             default 0%nat
                     (match length (List.filter (kindIs t) ws) with
                      | O => None
                      | n => Some n
                      end) = length (List.filter (kindIs t) ws)).
  { intros t. by destruct (length (List.filter (kindIs t) ws)). }
  rewrite !Hc. clear. induction ws as [|w ws IH]; [reflexivity |].
  cbn [List.filter].
  assert (Hk : forall t, kindIs t w =
                         String.eqb (typeName (type w)) (typeName t))
    by reflexivity.
  rewrite !Hk. destruct (type w);
    change (String.eqb (typeName image) (typeName image)) with true;
    change (String.eqb (typeName image) (typeName page)) with false;
    change (String.eqb (typeName image) (typeName unknown)) with false;
    change (String.eqb (typeName page) (typeName image)) with false;
    change (String.eqb (typeName page) (typeName page)) with true;
    change (String.eqb (typeName page) (typeName unknown)) with false;
    change (String.eqb (typeName unknown) (typeName image)) with false;
    change (String.eqb (typeName unknown) (typeName page)) with false;
    change (String.eqb (typeName unknown) (typeName unknown)) with true;
    cbn [length]; lia.
Qed.

(** X12 - the number of pages visited that [displayExplorationStats]
    prints is the number of requests the run made. *)
Theorem stats_pages_visited (get : string -> Response) (depth : nat) :
  size (visitedUrls (crawl get depth)) = length (requests (crawl get depth)).
Proof.
  rewrite visited_is_requests. apply size_list_to_set.
  apply (requests_nodup get _ (consistent_run get depth)).
Qed.

(** ** More facts about the tests on URLs *)

Lemma segmentSlashEnd_endsWith (seen : bool) (s : string) :
  Js.segmentSlashEnd seen s = true -> Js.endsWith s "/" = true.
Proof.
  revert seen. induction s as [|c s IH]; intros seen; [discriminate |].
  cbn [Js.segmentSlashEnd].
  destruct (Ascii.eqb_spec c "/") as [-> | _].
  - destruct s; [reflexivity |]. rewrite andb_false_r. discriminate.
  - intros H. apply endsWith_cons. by apply (IH true).
Qed.

Lemma matchTrailingDir_endsWith (s : string) :
  Js.matchTrailingDir s = true -> Js.endsWith s "/" = true.
Proof.
  induction s as [|c s IH]; [discriminate |].
  cbn [Js.matchTrailingDir]. intros H.
  apply orb_true_iff in H as [H | H]; [| by apply endsWith_cons, IH].
  apply andb_true_iff in H as [_ H].
  by apply endsWith_cons, (segmentSlashEnd_endsWith false).
Qed.

Lemma domain_has_dot (u : string) :
  Js.includes u "gytx.dev" = true -> Js.includes u "." = true.
Proof.
  rewrite !includes_spec. intros [before [after ->]].
  exists (before +:+ "gytx"), ("dev" +:+ after).
  by rewrite append_assoc.
Qed.

(** X13 - [shouldExploreLink] does not read the URL of the current page,
    and of the five directory patterns only three matter: a URL is explored
    exactly when it contains gytx.dev, contains no direct-file extension,
    and ends with a slash, contains /wareframes/ or /pog_up_wareframes/, or
    contains a web-page extension.  The pattern for URLs without a dot can
    never apply to a URL that contains gytx.dev, and the regular expression
    only matches URLs that end with a slash. *)
Theorem shouldExploreLink_spec (u currentUrl : string) :
  shouldExploreLink u currentUrl =
  Js.includes u "gytx.dev" &&
  negb (existsb (fun ext => Js.includes (Js.toLowerCase u) ext)
                directFileExtensions) &&
  (Js.endsWith u "/" || Js.includes u "/wareframes/" ||
   Js.includes u "/pog_up_wareframes/" || isWebPage u).
Proof.
  unfold shouldExploreLink.
  destruct (Js.includes u "gytx.dev") eqn:Edom; [| reflexivity].
  cbn [negb andb].
  destruct (existsb _ directFileExtensions); [reflexivity |].
  cbn [negb andb]. f_equal. unfold isDirectory. cbv zeta. cbn [existsb].
  rewrite (domain_has_dot u Edom). cbn [negb andb orb].
  destruct (Js.endsWith u "/") eqn:Eend; [reflexivity |].
  destruct (Js.matchTrailingDir u) eqn:Em.
  - apply matchTrailingDir_endsWith in Em. congruence.
  - by rewrite !orb_false_r.
Qed.




(** ** Pagination *)

Lemma skip_app (a b : string) : Js.skip (String.length a) (a +:+ b) = b.
Proof.
  induction a as [|c a IH]; [by destruct b |].
  rewrite append_cons. exact IH.
Qed.

Lemma digitAfter_spec (s lit : string) :
  Js.digitAfter s lit = true <->
  exists d after, Js.isDigit d = true /\ s = lit +:+ String d after.
Proof.
  unfold Js.digitAfter. rewrite andb_true_iff, startsWith_spec. split.
  - intros [[rest ->] H]. rewrite skip_app in H.
    destruct rest as [|d after]; [discriminate |]. by exists d, after.
  - intros [d [after [Hd ->]]]. split; [by eexists |].
    by rewrite skip_app.
Qed.

(** the test of [/lit\d+/]: the literal occurs with a digit right after *)
Lemma testLitDigits_spec (lit s : string) :
  Js.testLitDigits lit s = true <->
  exists before d after,
    Js.isDigit d = true /\ s = before +:+ lit +:+ String d after.
Proof.
  induction s as [|c s IH]; cbn [Js.testLitDigits].
  - rewrite orb_false_r, digitAfter_spec. split.
    + intros [d [after [Hd H]]]. by exists "", d, after.
    + intros [before [d [after [Hd H]]]].
      destruct before; [by exists d, after |]. discriminate.
  - rewrite orb_true_iff, digitAfter_spec, IH. split.
    + intros [[d [after [Hd H]]] | [before [d [after [Hd H]]]]].
      * by exists "", d, after.
      * exists (String c before), d, after. split; [exact Hd |].
        rewrite append_cons. by rewrite H.
    + intros [before [d [after [Hd H]]]]. destruct before as [|b before].
      * left. by exists d, after.
      * right. exists before, d, after. split; [exact Hd |].
        rewrite append_cons in H. by injection H.
Qed.

(** X15 - [isValidPaginationLink] accepts a URL exactly when the URL
    contains gytx.dev, differs from the URL of the current page, and
    contains one of page=, p=, offset=, /page/, /p/ with a digit right
    after it. *)
Theorem isValidPaginationLink_spec (u currentUrl : string) :
  isValidPaginationLink u currentUrl = true <->
  Js.includes u "gytx.dev" = true /\ u <> currentUrl /\
  exists lit before d after,
    In lit ["page="; "p="; "offset="; "/page/"; "/p/"] /\
    Js.isDigit d = true /\ u = before +:+ lit +:+ String d after.
Proof.
  unfold isValidPaginationLink.
  destruct (Js.includes u "gytx.dev"); cbn [negb];
    [| split; [discriminate | by intros [? _]]].
  destruct (String.eqb_spec u currentUrl) as [-> | Hne];
    [split; [discriminate | by intros [_ [? _]]] |].
  rewrite existsb_exists. split.
  - intros [lit [Hin H]]. apply testLitDigits_spec in H
      as [before [d [after [Hd ->]]]].
    repeat split; try done. by exists lit, before, d, after.
  - intros [_ [_ [lit [before [d [after [Hin [Hd ->]]]]]]]].
    exists lit. split; [exact Hin |]. apply testLitDigits_spec.
    by exists before, d, after.
Qed.

(** X16 - [findPaginationLinks] never returns the URL of the page it reads,
    and every link it returns contains gytx.dev and passes
    [isValidPaginationLink]: a page does not schedule itself as its own
    next page. *)
Theorem findPaginationLinks_valid (html : Document) (currentUrl : string) :
  Forall (fun l => l <> currentUrl /\
                   Js.includes l "gytx.dev" = true /\
                   isValidPaginationLink l currentUrl = true)
         (findPaginationLinks html currentUrl).
Proof.
  apply List.Forall_forall. intros l Hl. unfold findPaginationLinks in Hl.
  apply in_flat_map in Hl as [sel [_ Hl]].
  apply in_flat_map in Hl as [el [_ Hl]].
  apply in_pushIfLink in Hl as [href [_ [_ [_ Hv]]]].
  split; [| split; [by apply (isValidPaginationLink_domain l currentUrl) |
                    exact Hv]].
  intros ->. unfold isValidPaginationLink in Hv.
  rewrite String.eqb_refl in Hv.
  by destruct (negb (Js.includes currentUrl "gytx.dev")).
Qed.

(** ** Kinds and the asset test *)

(** X17 - [getFileType] answers [unknown] exactly for the URLs that contain
    none of the six asset extensions, so a URL of kind [image] or [page]
    always passes [isWireframeFile], and a URL that passes it with kind
    [unknown] does so by a keyword. *)
Theorem getFileType_unknown (u : string) :
  (getFileType u = unknown <->
   existsb (fun ext => Js.includes (Js.toLowerCase u) ext)
           wireframeExtensions = false) /\
  (getFileType u <> unknown -> isWireframeFile u = true) /\
  (isWireframeFile u = true -> getFileType u = unknown ->
   existsb (fun kw => Js.includes (Js.toLowerCase u) kw)
           ["wireframe"; "mockup"; "design"; "ui"; "ux"; "screen"; "pog"]
   = true).
Proof.
  assert (H : getFileType u = unknown <->
              existsb (fun ext => Js.includes (Js.toLowerCase u) ext)
                      wireframeExtensions = false).
  { unfold getFileType, wireframeExtensions. cbv zeta. cbn [existsb].
    destruct (Js.includes (Js.toLowerCase u) ".png"),
             (Js.includes (Js.toLowerCase u) ".jpg"),
             (Js.includes (Js.toLowerCase u) ".jpeg"),
             (Js.includes (Js.toLowerCase u) ".gif"),
             (Js.includes (Js.toLowerCase u) ".svg"),
             (Js.includes (Js.toLowerCase u) ".pdf"); by cbn. }
  split; [exact H |]. split.
  - intros Hk. unfold isWireframeFile. cbv zeta.
    destruct (existsb _ wireframeExtensions); [reflexivity |].
    destruct Hk. by apply H.
  - intros Hwf Hk. apply H in Hk. unfold isWireframeFile in Hwf.
    cbv zeta in Hwf. rewrite Hk in Hwf. cbn [orb] in Hwf.
    unfold wireframeKeywords in Hwf. cbn [existsb] in Hwf. cbn [existsb].
    destruct (Js.includes (Js.toLowerCase u) "pog");
      [by rewrite !orb_true_r |].
    by rewrite !orb_false_r in *.
Qed.

Lemma getFileType_unknown_witness :
  isWireframeFile "photos/plan.PDF" = true.
Proof.
  apply (getFileType_unknown "photos/plan.PDF"). discriminate.
Defined.

(** ** Resolving twice *)

(** X18 - when the base is omitted, empty or itself absolute (it starts
    with http), the URL [resolveUrl] returns is absolute, and resolving it
    again against any base returns it unchanged. *)
Theorem resolveUrl_idempotent (ref : string) (base base' : option string) :
  match base with
  | Some b => b = "" \/ Js.startsWith b "http" = true
  | None => True
  end ->
  Js.startsWith (resolveUrl ref base) "http" = true /\
  resolveUrl (resolveUrl ref base) base' = resolveUrl ref base.
Proof.
  intros Hbase.
  assert (Habs : Js.startsWith (resolveUrl ref base) "http" = true).
  { destruct base as [b|].
    - destruct Hbase as [-> | Hb]; [| by apply resolveUrl_absolute].
      apply (resolveUrl_absolute ref baseUrl). reflexivity.
    - apply (resolveUrl_absolute ref baseUrl). reflexivity. }
  split; [exact Habs |].
  unfold resolveUrl at 1. by rewrite Habs.
Qed.

Lemma resolveUrl_idempotent_witness :
  resolveUrl (resolveUrl "a/plan.png" (Some baseUrl)) (Some "https://x.y/")
  = resolveUrl "a/plan.png" (Some baseUrl).
Proof.
  apply (resolveUrl_idempotent "a/plan.png" (Some baseUrl)
           (Some "https://x.y/")).
  right. reflexivity.
Defined.
